(** * A shallow embedding of [backend_rag.py]

    The retrieval-augmented question answering pipeline: topic chunking,
    text extraction, indexing with expiry, retrieval, context assembly,
    answer generation and Socratic decomposition.

    Python strings are modelled by [string]; a character is a code point
    below 256.  Floating point scores are modelled by exact rationals
    ([Q]): every finite double is one, and the model leaves NaN and the
    infinities out.  The external services (embedding, vector index,
    completion, clock, file system) are oracles gathered in an
    environment; the mutable part of the world is threaded through a
    state-and-exception monad. *)

From Stdlib Require Import List String Ascii Bool Arith ZArith QArith Lia.
From Stdlib Require Import NArith Permutation Sorted Lqa.
Import ListNotations.

Set Warnings "-abstract-large-number".
Close Scope Q_scope.
Local Open Scope list_scope.
Local Open Scope string_scope.
Local Open Scope nat_scope.

(** ** Python string primitives *)

Module Py.

(** [str.isspace] on one character, which is also the class [\s] of the
    [re] module on [str] patterns. *)
Definition isspace (c : ascii) : bool :=
  let n := nat_of_ascii c in
  ((9 <=? n) && (n <=? 13)) || ((28 <=? n) && (n <=? 32))
  || (n =? 133) || (n =? 160).

(** [str.isdigit] restricted to the class [\d]: the decimal digits. *)
Definition isdigit (c : ascii) : bool :=
  let n := nat_of_ascii c in (48 <=? n) && (n <=? 57).

Definition isupper_ascii (c : ascii) : bool :=
  let n := nat_of_ascii c in (65 <=? n) && (n <=? 90).

Definition islower_ascii (c : ascii) : bool :=
  let n := nat_of_ascii c in (97 <=? n) && (n <=? 122).

(** [c.lower()] for a code point below 256. *)
Definition lower_char (c : ascii) : ascii :=
  let n := nat_of_ascii c in
  if ((65 <=? n) && (n <=? 90))
     || ((192 <=? n) && (n <=? 222) && negb (n =? 215))
  then ascii_of_nat (n + 32) else c.

(** [c.upper()] where the result is again one code point below 256. *)
Definition upper_char (c : ascii) : ascii :=
  let n := nat_of_ascii c in
  if ((97 <=? n) && (n <=? 122))
     || ((224 <=? n) && (n <=? 254) && negb (n =? 247))
  then ascii_of_nat (n - 32) else c.

Fixpoint lower (s : string) : string :=
  match s with
  | EmptyString => EmptyString
  | String c s' => String (lower_char c) (lower s')
  end.

(** [s.lstrip()], [s.rstrip()] and [s.strip()]. *)
Fixpoint lstrip (s : string) : string :=
  match s with
  | EmptyString => EmptyString
  | String c s' => if isspace c then lstrip s' else s
  end.

Fixpoint rstrip (s : string) : string :=
  match s with
  | EmptyString => EmptyString
  | String c s' =>
      match rstrip s' with
      | EmptyString => if isspace c then EmptyString else String c EmptyString
      | r => String c r
      end
  end.

Definition strip (s : string) : string := rstrip (lstrip s).

(** [all(p(c) for c in s)]. *)
Fixpoint all_chars (p : ascii -> bool) (s : string) : bool :=
  match s with
  | EmptyString => true
  | String c s' => p c && all_chars p s'
  end.

(** Truthiness of a string: [bool(s)]. *)
Definition truthy (s : string) : bool :=
  match s with EmptyString => false | _ => true end.

(** [s[:n]]. *)
Fixpoint take (n : nat) (s : string) : string :=
  match n, s with
  | S k, String c s' => String c (take k s')
  | _, _ => EmptyString
  end.

(** [s.startswith(p)]. *)
Definition startswith (p s : string) : bool := String.prefix p s.

(** [s.endswith(p)]. *)
Definition endswith (p s : string) : bool :=
  let n := String.length s in
  let k := String.length p in
  (k <=? n) && String.eqb (String.substring (n - k) k s) p.

(** [sep.join(l)]. *)
Definition join (sep : string) (l : list string) : string :=
  String.concat sep l.

(** [s.split(sep)] for a non-empty separator: the pieces between the
    occurrences of [sep], found from left to right without overlap.
    [skip] counts the characters of a separator still to be passed over
    and [cur] holds the piece read so far, last character first. *)
Fixpoint rev_string (acc s : string) : string :=
  match s with
  | EmptyString => acc
  | String c s' => rev_string (String c acc) s'
  end.

Fixpoint split_from (sep s : string) (skip : nat) (cur : string)
  : list string :=
  match s with
  | EmptyString => [rev_string EmptyString cur]
  | String c s' =>
      match skip with
      | S k => split_from sep s' k cur
      | O =>
          if String.prefix sep s
          then rev_string EmptyString cur
               :: split_from sep s' (String.length sep - 1) EmptyString
          else split_from sep s' 0 (String c cur)
      end
  end.

Definition split (sep s : string) : list string :=
  split_from sep s 0 EmptyString.

(** [n] copies of a character: [c * n]. *)
Fixpoint replicate (n : nat) (c : ascii) : string :=
  match n with
  | O => EmptyString
  | S k => String c (replicate k c)
  end.

(** Decimal digits of a natural number, [str(n)] for [n >= 0].  The
    fuel bounds the number of digits. *)
Definition digit_char (d : nat) : ascii := ascii_of_nat (48 + d).

Fixpoint digits_fuel (fuel : nat) (n : N) (acc : string) : string :=
  match fuel with
  | O => acc
  | S f =>
      let acc' := String (digit_char (N.to_nat (N.modulo n 10))) acc in
      if N.ltb n 10 then acc' else digits_fuel f (N.div n 10) acc'
  end.

Definition str_of_N (n : N) : string :=
  digits_fuel (S (N.to_nat (N.log2 n))) n EmptyString.

Definition str_of_nat (n : nat) : string := str_of_N (N.of_nat n).

(** [str(z)] for an integer. *)
Definition str_of_Z (z : Z) : string :=
  match z with
  | Zneg p => String "-"%char (str_of_N (Npos p))
  | _ => str_of_N (Z.to_N z)
  end.

(** [int(x)] on a number: truncation toward zero. *)
Definition int_of_Q (q : Q) : Z := Z.quot (Qnum q) (Zpos (Qden q)).

(** Rounding of a non-negative fraction [a/d] to the nearest integer,
    ties to even: the rounding of the format [.3f]. *)
Definition round_half_even (a : N) (d : positive) : N :=
  let q := N.div a (Npos d) in
  let r := N.modulo a (Npos d) in
  match N.compare (2 * r) (Npos d) with
  | Lt => q
  | Gt => N.succ q
  | Eq => if N.even q then q else N.succ q
  end.

Definition pad3 (s : string) : string :=
  replicate (3 - String.length s) "0"%char ++ s.

(** [format(x, '.3f')] for a finite number [x].  A rational has no
    negative zero: the program prints [-0.000] for the float [-0.0],
    which the model does not have. *)
Definition format_3f (x : Q) : string :=
  let m := round_half_even (Z.abs_N (Qnum x) * 1000) (Qden x) in
  let body :=
    str_of_N (N.div m 1000) ++ "." ++ pad3 (str_of_N (N.modulo m 1000)) in
  if (Qnum x <? 0)%Z then String "-"%char body else body.

End Py.

(** ** The fragment of Python's [re] module that the program uses *)

Module Re.

(** Patterns.  Every repetition of the program's patterns is over a
    single character or character class, so [Rep] carries a class. *)
Inductive regex : Type :=
| Eps
| Chr (c : ascii)
| Cls (p : ascii -> bool)
| Rep (p : ascii -> bool) (lo : nat) (hi : option nat)
| Seq (r1 r2 : regex)
| Alt (r1 r2 : regex).

(** A literal word. *)
Fixpoint lit (w : string) : regex :=
  match w with
  | EmptyString => Eps
  | String c w' => Seq (Chr c) (lit w')
  end.

Definition is_char (c x : ascii) : bool := Ascii.eqb c x.

(** Membership in a class; under [re.IGNORECASE] a character also
    matches through its other case.  The characters of the model are
    the code points below 256.  Outside this range the real classes and
    literals match a few more characters under [re.IGNORECASE]: the
    Kelvin sign U+212A matches [k], the long s U+017F matches [s], and
    U+0130 and U+0131 match [i]; a statement on what does not match
    holds of the program for the characters of the model only. *)
Definition in_class (ic : bool) (p : ascii -> bool) (x : ascii) : bool :=
  if ic then p x || p (Py.lower_char x) || p (Py.upper_char x) else p x.

Definition hi_allows (hi : option nat) : bool :=
  match hi with Some O => false | _ => true end.

Definition hi_pred (hi : option nat) : option nat :=
  match hi with Some n => Some (Nat.pred n) | None => None end.

Section Matcher.
Context {A : Type}.
Variable ic : bool.

(** Greedy repetition with backtracking: take one more character when
    the class and the upper bound allow it, and give it back when the
    rest of the pattern then fails. *)
Fixpoint rep (p : ascii -> bool) (lo : nat) (hi : option nat)
    (s : string) (k : string -> option A) : option A :=
  let stop := if lo =? 0 then k s else None in
  match s with
  | EmptyString => stop
  | String x s' =>
      if in_class ic p x && hi_allows hi
      then match rep p (Nat.pred lo) (hi_pred hi) s' k with
           | Some a => Some a
           | None => stop
           end
      else stop
  end.

(** The backtracking matcher, in continuation-passing style: [k] is
    the rest of the pattern, run on the rest of the subject. *)
Fixpoint run (r : regex) (s : string) (k : string -> option A)
  : option A :=
  match r with
  | Eps => k s
  | Chr c =>
      match s with
      | String x s' => if in_class ic (is_char c) x then k s' else None
      | EmptyString => None
      end
  | Cls p =>
      match s with
      | String x s' => if in_class ic p x then k s' else None
      | EmptyString => None
      end
  | Rep p lo hi => rep p lo hi s k
  | Seq r1 r2 => run r1 s (fun s' => run r2 s' k)
  | Alt r1 r2 =>
      match run r1 s k with
      | Some a => Some a
      | None => run r2 s k
      end
  end.
End Matcher.

(** [pattern.match(s)]: a match anchored at the start of [s]; the result
    is what follows the matched prefix. *)
Definition match_prefix (ic : bool) (r : regex) (s : string)
  : option string :=
  run ic r s (fun rest => Some rest).

(** [re.sub('^' + r, repl, s)]: without [re.MULTILINE] the anchor holds
    at position 0 only, so at most the match there is replaced. *)
Definition sub_start (ic : bool) (r : regex) (repl s : string) : string :=
  match match_prefix ic r s with
  | Some rest => repl ++ rest
  | None => s
  end.

(** [re.sub(r, repl, s)] for an unanchored pattern: every match, from
    left to right without overlap.  [skip] counts the characters of the
    last match still to be passed over. *)
Fixpoint sub_from (ic : bool) (r : regex) (repl s : string) (skip : nat)
  : string :=
  match s with
  | EmptyString =>
      match match_prefix ic r EmptyString with
      | Some _ => repl
      | None => EmptyString
      end
  | String c s' =>
      match skip with
      | S k => sub_from ic r repl s' k
      | O =>
          match match_prefix ic r s with
          | Some rest =>
              let used := String.length s - String.length rest in
              match used with
              | O => repl ++ String c (sub_from ic r repl s' 0)
              | S k => repl ++ sub_from ic r repl s' k
              end
          | None => String c (sub_from ic r repl s' 0)
          end
      end
  end.

Definition sub (ic : bool) (r : regex) (repl s : string) : string :=
  sub_from ic r repl s 0.

Definition plus (p : ascii -> bool) : regex := Rep p 1 None.
Definition star (p : ascii -> bool) : regex := Rep p 0 None.
Definition opt (p : ascii -> bool) : regex := Rep p 0 (Some 1).

End Re.

Definition LF : ascii := ascii_of_nat 10.
Definition CR : ascii := ascii_of_nat 13.
Definition nl : string := String LF EmptyString.

(** ** Chunking by topic: [chunk_by_topic] *)

Record Chunk : Type := mkChunk { title : string; content : string }.

Definition is_hash (c : ascii) : bool := Ascii.eqb c "#".
Definition is_colon (c : ascii) : bool := Ascii.eqb c ":".
Definition is_colon_dash (c : ascii) : bool :=
  Ascii.eqb c ":" || Ascii.eqb c "-".
(** The class [[A-Z\s]]. *)
Definition is_AZ_space (c : ascii) : bool :=
  Py.isupper_ascii c || Py.isspace c.
(** The class [[#:\-\s]]. *)
Definition is_title_junk (c : ascii) : bool :=
  Ascii.eqb c "#" || Ascii.eqb c ":" || Ascii.eqb c "-" || Py.isspace c.

(** [Chapter\s+\d+[:\-]?\s*], and the same with [Section]. *)
Definition numbered (word : string) : Re.regex :=
  Re.Seq (Re.lit word)
    (Re.Seq (Re.plus Py.isspace)
       (Re.Seq (Re.plus Py.isdigit)
          (Re.Seq (Re.opt is_colon_dash) (Re.star Py.isspace)))).

(** The pattern compiled at line 147, without its leading [^]; the
    program compiles it with [re.IGNORECASE] and applies it with
    [match], which anchors it at the start of the paragraph only. *)
Definition heading_pattern : Re.regex :=
  Re.Alt (Re.Seq (Re.Rep is_hash 1 (Some 3)) (Re.plus Py.isspace))
    (Re.Alt (numbered "Chapter")
       (Re.Alt (numbered "Section")
          (Re.Seq (Re.Cls Py.isupper_ascii)
             (Re.Seq (Re.Rep is_AZ_space 5 (Some 50))
                (Re.opt is_colon))))).

(** [heading_pattern.match(para)] as a truth value. *)
Definition is_heading (para : string) : bool :=
  match Re.match_prefix true heading_pattern para with
  | Some _ => true
  | None => false
  end.

(** [re.sub(r'^[#:\-\s]+', '', para).strip() or "Untitled"]. *)
Definition heading_title (para : string) : string :=
  let t := Py.strip (Re.sub_start false (Re.plus is_title_junk) "" para) in
  if Py.truthy t then t else "Untitled".

(** [re.sub(r'\r\n|\r', '\n', text)]. *)
Definition normalize_newlines (text : string) : string :=
  Re.sub false (Re.Alt (Re.Seq (Re.Chr CR) (Re.Chr LF)) (Re.Chr CR)) nl text.

(** [[p.strip() for p in text.split('\n\n') if p.strip()]] on the
    normalized text. *)
Definition paragraphs (text : string) : list string :=
  map Py.strip
    (filter (fun p => Py.truthy (Py.strip p))
       (Py.split (nl ++ nl) (normalize_newlines text))).

(** The variables of the loop. *)
Record chunker : Type := mkChunker {
  chunks : list Chunk;
  current_title : string;
  current_content : list string
}.

Definition nonempty {A : Type} (l : list A) : bool :=
  match l with [] => false | _ => true end.

(** [chunks.append({...})] when [current_content] is not empty. *)
Definition flush (st : chunker) : list Chunk :=
  if nonempty (current_content st)
  then (chunks st
        ++ [mkChunk (current_title st)
              (Py.join (nl ++ nl) (current_content st))])%list
  else chunks st.

(** One turn of the loop over the paragraphs. *)
Definition chunk_step (st : chunker) (para : string) : chunker :=
  if is_heading para
  then mkChunker (flush st) (heading_title para) [para]
  else mkChunker (chunks st) (current_title st)
         (current_content st ++ [para])%list.

Definition chunker_init : chunker := mkChunker [] "General" [].

Definition chunk_paragraphs (ps : list string) : list Chunk :=
  flush (fold_left chunk_step ps chunker_init).

Definition chunk_by_topic (text : string) : list Chunk :=
  chunk_paragraphs (paragraphs text).

(** The number of paragraphs that match the heading pattern. *)
Definition heading_count (ps : list string) : nat :=
  List.length (filter is_heading ps).

(** There is content before the first heading: the first paragraph is
    not a heading. *)
Definition has_preamble (ps : list string) : bool :=
  match ps with
  | [] => false
  | p :: _ => negb (is_heading p)
  end.

(** The heading test in the words of the specification: a prefix of one
    to three [#]; a prefix [Chapter N] or [Section N], in any case; or a
    line of 6 to 50 characters, all uppercase letters or spaces, with an
    optional colon at its end. *)
Module HeadingSpec.

Fixpoint leading_hashes (s : string) : nat :=
  match s with
  | String c s' => if is_hash c then S (leading_hashes s') else 0
  | EmptyString => 0
  end.

Definition markdown_prefix (s : string) : bool :=
  (1 <=? leading_hashes s) && (leading_hashes s <=? 3).

Definition numbered_prefix (word s : string) : bool :=
  match Re.match_prefix true
          (Re.Seq (Re.lit word)
             (Re.Seq (Re.plus Py.isspace) (Re.plus Py.isdigit))) s with
  | Some _ => true
  | None => false
  end.

Definition upper_or_space (c : ascii) : bool :=
  Py.isupper_ascii c || Ascii.eqb c " ".

Definition drop_final_colon (s : string) : string :=
  if Py.endswith ":" s then Py.take (String.length s - 1) s else s.

Definition uppercase_line (s : string) : bool :=
  (6 <=? String.length s) && (String.length s <=? 50)
  && Py.all_chars upper_or_space (drop_final_colon s).

Definition heading_per_spec (s : string) : bool :=
  markdown_prefix s || numbered_prefix "Chapter" s
  || numbered_prefix "Section" s || uppercase_line s.

End HeadingSpec.


(** ** Configuration *)

Definition CHAT_MODEL : string := "gpt-4o".
Definition EMBED_MODEL : string := "text-embedding-3-small".
Definition TOP_K : nat := 6.
Definition MIN_SCORE : Q := 25 # 100.
Definition MAX_CONTEXT_CHARS : nat := 7000.
Definition DEFAULT_TTL_HOURS : Z := 24 * 7.

(** ** Data model *)

(** An embedding vector. *)
Definition vector : Type := list Q.

(** The metadata mapping of a record; a key that is absent is [None]. *)
Record Metadata : Type := mkMetadata {
  md_title : option string;
  md_text : option string;
  md_source : option string;
  md_created_at : option Z;
  md_expires_at : option Z
}.

Definition empty_metadata : Metadata :=
  mkMetadata None None None None None.

(** What [index.upsert] is given. *)
Record IndexedRecord : Type := mkRecord {
  r_id : string;
  r_values : vector;
  r_metadata : Metadata
}.

(** One entry of [res["matches"]]. *)
Record Match : Type := mkMatch {
  m_id : string;
  m_score : option Q;
  m_metadata : option Metadata
}.

(** The arguments of [oa.chat.completions.create] and the parts of its
    result that the program reads. *)
Record ChatRequest : Type := mkChatRequest {
  cr_model : string;
  cr_system : option string;
  cr_user : string;
  cr_temperature : Q;
  cr_max_tokens : nat
}.

Record ChatResponse : Type := mkChatResponse {
  resp_content : string;
  resp_prompt_tokens : nat;
  resp_completion_tokens : nat
}.

(** ** Exceptions, the world and the monad *)

(** The exceptions at play; all of them derive from [Exception]. *)
Inductive exn : Type :=
| ValueError (msg : string)
| IOError (msg : string)
| ServiceError (msg : string).

Inductive outcome (A : Type) : Type :=
| Ret (a : A)
| Raise (e : exn).
Arguments Ret {A} a.
Arguments Raise {A} e.

(** The calls that leave the process. *)
Inductive event : Type :=
| EvEmbed (text : string)
| EvUpsert (r : IndexedRecord)
| EvQuery (qvec : vector) (top_k : nat) (expires_after : option Z)
| EvChat (req : ChatRequest).

(** The mutable world: how many times the clock was read, the content
    of the vector index, and the calls made so far, oldest first. *)
Record World : Type := mkWorld {
  ticks : nat;
  store : list IndexedRecord;
  trace : list event
}.

(** The environment: the services the program calls and the settings
    fixed when the module is imported. *)
Record Env : Type := mkEnv {
  (** the clock: microseconds since the epoch at the n-th reading *)
  clock_us : nat -> Z;
  (** seconds that local time is ahead of UTC *)
  utc_offset : Z;
  embed_oracle : string -> outcome (vector * nat);
  upsert_oracle : IndexedRecord -> option exn;
  similarity : vector -> vector -> Q;
  chat_oracle : ChatRequest -> outcome ChatResponse;
  PINECONE_NEW : bool;
  (** [PyPDF2]: the text of each page, [None] when the page has none;
      the module itself is [None] when it is not installed *)
  PyPDF2 : option (string -> outcome (list (option string)));
  docx2txt : option (string -> outcome string);
  read_text : string -> outcome string;
  read_csv : string -> outcome (list (list string))
}.

Definition M (A : Type) : Type := World -> outcome A * World.

Definition ret {A : Type} (a : A) : M A := fun w => (Ret a, w).

Definition raise {A : Type} (e : exn) : M A := fun w => (Raise e, w).

Definition bind {A B : Type} (c : M A) (f : A -> M B) : M B :=
  fun w =>
    match c w with
    | (Ret a, w') => f a w'
    | (Raise e, w') => (Raise e, w')
    end.

(** [try: c except Exception as e: h e]. *)
Definition try_except {A : Type} (c : M A) (h : exn -> M A) : M A :=
  fun w =>
    match c w with
    | (Ret a, w') => (Ret a, w')
    | (Raise e, w') => h e w'
    end.

Declare Scope monad_scope.
Delimit Scope monad_scope with monad.
Notation "x <- c ;; k" := (bind c (fun x => k))
  (at level 61, c at next level, right associativity) : monad_scope.
Notation "' pat <- c ;; k" := (bind c (fun x => match x with pat => k end))
  (at level 61, pat pattern, c at next level, right associativity)
  : monad_scope.
Local Open Scope monad_scope.

(** [for x in l: body x], left by the first exception. *)
Fixpoint for_each {X : Type} (l : list X) (body : X -> M unit) : M unit :=
  match l with
  | [] => ret tt
  | x :: l' => _ <- body x ;; for_each l' body
  end.

(** [enumerate(l, start)]. *)
Fixpoint enumerate_from {X : Type} (start : nat) (l : list X)
  : list (nat * X) :=
  match l with
  | [] => []
  | x :: l' => (start, x) :: enumerate_from (S start) l'
  end.

Definition log (ev : event) : M unit :=
  fun w => (Ret tt, mkWorld (ticks w) (store w) (trace w ++ [ev])%list).

Definition lift_outcome {A : Type} (o : outcome A) : M A :=
  fun w => (o, w).

(** One reading of the clock, in microseconds. *)
Definition read_clock (env : Env) : M Z :=
  fun w => (Ret (clock_us env (ticks w)),
            mkWorld (S (ticks w)) (store w) (trace w)).

Definition MICRO : Z := 1000000.

(** [int(time.time())]. *)
Definition int_time (env : Env) : M Z :=
  t <- read_clock env ;; ret (Z.quot t MICRO).

(** [int((datetime.utcnow() + timedelta(hours=h)).timestamp())]: the
    datetime is naive, and [timestamp] reads a naive datetime as local
    time.  The [OverflowError] that the sum raises when it leaves the
    years 1 to 9999 is not modelled: for such an [h] the program stops
    before the loop, and the model goes on. *)
Definition int_utcnow_plus_hours (env : Env) (h : Z) : M Z :=
  t <- read_clock env ;;
  ret (Z.quot (t + h * 3600 * MICRO - utc_offset env * MICRO) MICRO).

(** ** Embedding: [embed_text] *)

Definition embed_text (env : Env) (text : string) : M (vector * nat) :=
  _ <- log (EvEmbed text) ;;
  lift_outcome (embed_oracle env text).

(** ** The vector index *)

(** Stable sort by decreasing key: [sorted(l, key=key, reverse=True)].
    An element goes before the first one whose key is not greater, so
    elements of equal key keep the order of the input. *)
Section SortDesc.
Context {X : Type}.
Variable key : X -> Q.

Fixpoint insert_desc (x : X) (l : list X) : list X :=
  match l with
  | [] => [x]
  | y :: l' =>
      if Qle_bool (key y) (key x) then x :: l
      else y :: insert_desc x l'
  end.

Fixpoint sort_desc (l : list X) : list X :=
  match l with
  | [] => []
  | x :: l' => insert_desc x (sort_desc l')
  end.
End SortDesc.

(** The metadata filter [{"expires_at": {"$gt": ts}}]: a record
    without the field does not satisfy a comparison on it. *)
Definition passes_filter (expires_after : option Z) (r : IndexedRecord)
  : bool :=
  match expires_after with
  | None => true
  | Some ts =>
      match md_expires_at (r_metadata r) with
      | Some e => (e >? ts)%Z
      | None => false
      end
  end.

Definition score_or_zero (s : option Q) : Q :=
  match s with Some q => q | None => 0%Q end.

(** [m.get("score", 0)]. *)
Definition score_key (m : Match) : Q := score_or_zero (m_score m).

(** [index.query(vector, top_k, include_metadata=True, filter)]: the
    [top_k] records nearest to the query among those that pass the
    filter, nearest first, each with its similarity and its metadata. *)
Definition index_query (env : Env) (qvec : vector) (top_k : nat)
    (expires_after : option Z) : M (list Match) :=
  _ <- log (EvQuery qvec top_k expires_after) ;;
  fun w =>
    let hits :=
      map (fun r => mkMatch (r_id r)
                      (Some (similarity env qvec (r_values r)))
                      (Some (r_metadata r)))
        (filter (passes_filter expires_after) (store w)) in
    (Ret (firstn top_k (sort_desc score_key hits)), w).

(** [index.upsert(vectors=[r])]: the record replaces the one of the same
    id, if any. *)
Definition index_upsert (env : Env) (r : IndexedRecord) : M unit :=
  _ <- log (EvUpsert r) ;;
  fun w =>
    match upsert_oracle env r with
    | Some e => (Raise e, w)
    | None =>
        (Ret tt,
         mkWorld (ticks w)
           (filter (fun r' => negb (String.eqb (r_id r') (r_id r)))
              (store w) ++ [r])%list
           (trace w))
    end.

(** ** Upsert with TTL: [upsert_chunks] *)

(** [if expiry: metadata["expires_at"] = expiry]: [None] and [0] are
    both false. *)
Definition attached_expiry (expiry : option Z) : option Z :=
  match expiry with
  | Some e => if (e =? 0)%Z then None else Some e
  | None => None
  end.

(** The body of the loop for the chunk of index [i]. *)
Definition upsert_one (env : Env) (source : string) (expiry : option Z)
    (ic : nat * Chunk) : M unit :=
  let (i, chunk) := ic in
  let content' := Py.take 10000 (content chunk) in
  let title' := Py.take 200 (title chunk) in
  if negb (Py.truthy (Py.strip content')) then ret tt
  else
    ' (vec, _) <- embed_text env content' ;;
    t_id <- int_time env ;;
    let doc_id :=
      source ++ "_" ++ Py.str_of_Z t_id ++ "_" ++ Py.str_of_nat i in
    t_created <- int_time env ;;
    let metadata :=
      mkMetadata (Some title') (Some content') (Some source)
        (Some t_created) (attached_expiry expiry) in
    index_upsert env (mkRecord doc_id vec metadata).

Definition upsert_chunks (env : Env) (chunks : list Chunk)
    (source : string) (ttl_hours : Z) : M unit :=
  expiry <- (if (ttl_hours >? 0)%Z
             then e <- int_utcnow_plus_hours env ttl_hours ;; ret (Some e)
             else ret None) ;;
  for_each (enumerate_from 0 chunks) (upsert_one env source expiry).

(** The records handed to the index, in order. *)
Definition upserted (tr : list event) : list IndexedRecord :=
  flat_map (fun ev => match ev with EvUpsert r => [r] | _ => [] end) tr.

(** The texts sent to the embedding service, in order. *)
Definition embedded (tr : list event) : list string :=
  flat_map (fun ev => match ev with EvEmbed t => [t] | _ => [] end) tr.

(** The completion requests, in order. *)
Definition chats (tr : list event) : list ChatRequest :=
  flat_map (fun ev => match ev with EvChat r => [r] | _ => [] end) tr.

(** ** Retrieval with TTL filter: [retrieve] *)

Definition metadata_or_empty (m : Match) : Metadata :=
  match m_metadata m with Some md => md | None => empty_metadata end.

(** [(m.get("metadata") or {}).get("text", "")]. *)
Definition match_text (m : Match) : string :=
  match md_text (metadata_or_empty m) with Some t => t | None => "" end.

(** [m.get("metadata", {}).get("expires_at", float('inf')) > current_ts]. *)
Definition not_expired (current_ts : Z) (m : Match) : bool :=
  match md_expires_at (metadata_or_empty m) with
  | Some e => (e >? current_ts)%Z
  | None => true
  end.

Definition retrieve (env : Env) (query : string) (top_k : nat)
  : M (list Match) :=
  ' (qvec, _) <- embed_text env query ;;
  current_ts <- int_time env ;;
  matches <-
    (if PINECONE_NEW env
     then index_query env qvec top_k
            (if (DEFAULT_TTL_HOURS >? 0)%Z then Some current_ts else None)
     else
       matches <- index_query env qvec top_k None ;;
       ret (if (DEFAULT_TTL_HOURS >? 0)%Z
            then filter (not_expired current_ts) matches
            else matches)) ;;
  ret (filter (fun m => Py.truthy (match_text m)) matches).

(** ** Context assembly: [build_context] *)

(** [f"[{i} | score={m.get('score', 0):.3f}]\n{t}\n"]. *)
Definition format_chunk (i : nat) (m : Match) (t : string) : string :=
  "[" ++ Py.str_of_nat i ++ " | score=" ++ Py.format_3f (score_key m)
  ++ "]" ++ nl ++ t ++ nl.

(** The loop over the sorted matches from rank [i] on, with [size]
    characters already taken; the result is what is appended to
    [parts]. *)
Fixpoint pack (i size : nat) (matches : list Match) : list string :=
  match matches with
  | [] => []
  | m :: rest =>
      let t := match_text m in
      if negb (Py.truthy t) then pack (S i) size rest
      else
        let chunk := format_chunk i m t in
        if MAX_CONTEXT_CHARS <? size + String.length chunk then []
        else chunk :: pack (S i) (size + String.length chunk) rest
  end.

Definition build_context (matches : list Match) : string :=
  Py.join nl (pack 1 0 (sort_desc score_key matches)).

(** ** Answering: [ask_llm] and [answer] *)

(** [oa.chat.completions.create(...)]. *)
Definition chat_completion (env : Env) (req : ChatRequest)
  : M ChatResponse :=
  _ <- log (EvChat req) ;;
  lift_outcome (chat_oracle env req).

(** The user message of [ask_llm]. *)
Definition user_prompt (question context : string) : string :=
  if Py.truthy context
  then "Question:" ++ nl ++ question ++ nl ++ nl ++ "Context:" ++ nl
       ++ context
  else "Question:" ++ nl ++ question.

Definition system_prompt (style lang : string) : string :=
  let lang_instr :=
    if String.eqb lang "hi"
    then "Answer in Hindi using Devanagari script."
    else "Answer in English." in
  let style_instr :=
    if String.eqb style "detailed"
    then "Provide detailed explanation with examples."
    else "Keep answer concise." in
  "You are Ycotes, an AI tutor. " ++ lang_instr ++ " " ++ style_instr
  ++ " Use context if provided.".

Definition ask_request (question context style lang : string)
  : ChatRequest :=
  mkChatRequest CHAT_MODEL
    (Some (system_prompt style lang))
    (user_prompt question context)
    (if String.eqb style "concise" then 4 # 10 else 7 # 10)
    (if String.eqb style "concise" then 300 else 800).

Definition ask_llm (env : Env) (question context style lang : string)
  : M (string * nat * nat) :=
  r <- chat_completion env (ask_request question context style lang) ;;
  ret (Py.strip (resp_content r),
       resp_prompt_tokens r, resp_completion_tokens r).

(** [[m for m in matches if m.get("score", 0) >= MIN_SCORE]]. *)
Definition strong_matches (matches : list Match) : list Match :=
  filter (fun m => Qle_bool MIN_SCORE (score_key m)) matches.

Definition answer (env : Env) (question style lang : string) : M string :=
  matches <- retrieve env question TOP_K ;;
  let strong := strong_matches matches in
  if negb (nonempty strong)
  then
    ' (ans, _, _) <- ask_llm env question "" style lang ;;
    ret ans
  else
    let ctx := build_context strong in
    ' (ans, _, _) <- ask_llm env question ctx style lang ;;
    ret ans.

(** ** Socratic decomposition: [generate_sub_questions] *)

Definition dq : string := String (ascii_of_nat 34) EmptyString.

Definition sub_questions_prompt (main_question lang : string) : string :=
  let lang_prompt :=
    if String.eqb lang "hi" then "Generate questions in Hindi."
    else "Generate questions in English." in
  nl ++
  "Generate exactly 3 foundational sub-questions based on this main question: "
  ++ dq ++ main_question ++ dq ++ nl ++ nl ++
  "Rules:
- Generate exactly 3 questions
- Make them simple and foundational
- " ++ lang_prompt ++ "
- Respond ONLY with the 3 questions, one per line
- No numbering, no bullets, no extra text

Example output:
What is a data structure?
What is an algorithm?
Why are data structures important?
".

Definition is_dot_or_paren (c : ascii) : bool :=
  Ascii.eqb c "." || Ascii.eqb c ")".
Definition is_dash_or_star (c : ascii) : bool :=
  Ascii.eqb c "-" || Ascii.eqb c "*".

(** The body of the loop over the lines of the reply: the cleaned line,
    or [None] where the loop continues without appending. *)
Definition clean_line (line : string) : option string :=
  let line := Py.strip line in
  if negb (Py.truthy line) then None
  else
    (* re.sub(r'^\d+[\.\)]\s*', '', line) *)
    let line :=
      Re.sub_start false
        (Re.Seq (Re.plus Py.isdigit)
           (Re.Seq (Re.Cls is_dot_or_paren) (Re.star Py.isspace)))
        "" line in
    (* re.sub(r'^[-\*]\s*', '', line) *)
    let line :=
      Re.sub_start false
        (Re.Seq (Re.Cls is_dash_or_star) (Re.star Py.isspace)) "" line in
    if (150 <? String.length line) || negb (Py.endswith "?" line)
    then None
    else Some line.

Definition cleaned_questions (raw : string) : list string :=
  flat_map (fun line => match clean_line line with
                        | Some q => [q]
                        | None => []
                        end)
    (Py.split nl raw).

Definition fallback_question (main_question : string) : string :=
  "What is " ++ main_question ++ "?".

Definition generate_sub_questions (env : Env) (main_question lang : string)
  : M (list string) :=
  try_except
    (r <- chat_completion env
            (mkChatRequest CHAT_MODEL None
               (sub_questions_prompt main_question lang) (1 # 10) 150) ;;
     let raw := Py.strip (resp_content r) in
     let cleaned := cleaned_questions raw in
     if List.length cleaned =? 0
     then ret [fallback_question main_question]
     else ret (firstn 3 cleaned))
    (fun _ => ret [fallback_question main_question]).

(** ** File extraction: [extract_text_from_file] *)

(** [s.rfind(c)]: the last index of [c], counted from [i]. *)
Fixpoint rfind_from (c : ascii) (s : string) (i : nat) : option nat :=
  match s with
  | EmptyString => None
  | String x s' =>
      match rfind_from c s' (S i) with
      | Some j => Some j
      | None => if Ascii.eqb x c then Some i else None
      end
  end.

Definition rfind (c : ascii) (s : string) : option nat := rfind_from c s 0.

Definition is_dot (c : ascii) : bool := Ascii.eqb c ".".

(** [os.path.splitext(p)[1]] of [posixpath]: the part from the last dot
    of the last path component on, unless only dots come before it. *)
Definition splitext_ext (p : string) : string :=
  match rfind "." p with
  | None => ""
  | Some dot =>
      let start := match rfind "/" p with Some sep => S sep | None => 0 end in
      if (start <=? dot)
         && negb (Py.all_chars is_dot
                    (String.substring start (dot - start) p))
      then String.substring dot (String.length p - dot) p
      else ""
  end.

Definition page_text (t : option string) : string :=
  match t with Some s => s | None => "" end.

Definition fmap_outcome {A B : Type} (f : A -> B) (o : outcome A)
  : outcome B :=
  match o with Ret a => Ret (f a) | Raise e => Raise e end.

(** The body of the [try] block. *)
Definition extract_body (env : Env) (filepath : string) : outcome string :=
  let ext := Py.lower (splitext_ext filepath) in
  match String.eqb ext ".pdf", PyPDF2 env with
  | true, Some pdf_reader =>
      fmap_outcome (fun pages => Py.join (nl ++ nl) (map page_text pages))
        (pdf_reader filepath)
  | _, _ =>
      if String.eqb ext ".txt" then read_text env filepath
      else
        match String.eqb ext ".docx", docx2txt env with
        | true, Some process => process filepath
        | _, _ =>
            if String.eqb ext ".csv"
            then fmap_outcome
                   (fun rows => Py.join nl (map (Py.join ", ") rows))
                   (read_csv env filepath)
            else Raise (ValueError ("Unsupported file: " ++ ext))
        end
  end.

(** [try: ... except Exception as e: print(...); return ""]. *)
Definition extract_text_from_file (env : Env) (filepath : string)
  : outcome string :=
  match extract_body env filepath with
  | Ret text => Ret text
  | Raise _ => Ret ""
  end.

(** ** Vocabulary of the statements *)

(** The sum of the lengths of the strings of a list. *)
Definition total_length (l : list string) : nat :=
  fold_right (fun s n => String.length s + n) 0 l.

(** A match of text [t] and score [s], as the index returns it. *)
Definition match_of (id : string) (s : Q) (t : string) : Match :=
  mkMatch id (Some s) (Some (mkMetadata None (Some t) None None None)).

(** [m] has the lowest score of [ms]. *)
Definition lowest_scored (m : Match) (ms : list Match) : Prop :=
  In m ms /\ forall m', In m' ms -> (score_key m <= score_key m')%Q.

(** The text that [upsert_chunks] stores for a chunk, and whether the
    chunk passes the guard of its loop. *)
Definition stored_text (c : Chunk) : string := Py.take 10000 (content c).

Definition kept (c : Chunk) : bool := Py.truthy (Py.strip (stored_text c)).

(** The content of a chunk is neither empty nor whitespace only. *)
Definition nonblank (c : Chunk) : bool :=
  Py.truthy (Py.strip (content c)).

(** The user message carries a context section. *)
Definition has_context_section (question user : string) : Prop :=
  exists ctx,
    ctx <> ""
    /\ user = "Question:" ++ nl ++ question ++ nl ++ nl ++ "Context:" ++ nl
              ++ ctx.

(** What [ask_llm] returns for a reply of the completion service. *)
Definition reply_of (o : outcome ChatResponse) : outcome string :=
  fmap_outcome (fun r => Py.strip (resp_content r)) o.

(** ** Concrete environments for the examples *)

(** The dot product, the cosine similarity of unit vectors. *)
Fixpoint dot (u v : vector) : Q :=
  match u, v with
  | a :: u', b :: v' => (a * b + dot u' v')%Q
  | _, _ => 0%Q
  end.

(** Services that always succeed: every text is embedded as [[1]], the
    completion service answers "ok", local time is UTC. *)
Definition example_env (new_sdk : bool) (clock : nat -> Z) : Env :=
  mkEnv clock 0
    (fun _ => Ret ([1%Q], 1))
    (fun _ => None)
    dot
    (fun _ => Ret (mkChatResponse "ok" 1 1))
    new_sdk None None
    (fun _ => Raise (IOError "No such file"))
    (fun _ => Raise (IOError "No such file")).

(** A clock that stands still at second 1000, and one that advances by
    one second at each reading. *)
Definition still_clock (n : nat) : Z := 1000 * MICRO.
Definition ticking_clock (n : nat) : Z := (1000 + Z.of_nat n) * MICRO.

Definition empty_world : World := mkWorld 0 [] [].

(** A record of the given similarity to the query [[1]]. *)
Definition example_record (id : string) (score : Q) (text : string)
    (expires_at : option Z) : IndexedRecord :=
  mkRecord id [score]
    (mkMetadata (Some id) (Some text) (Some "example") (Some 0%Z)
       expires_at).

(** The string starts with a character that is not whitespace. *)
Definition starts_nonspace (s : string) : bool :=
  match s with
  | String c _ => negb (Py.isspace c)
  | EmptyString => false
  end.

(** A chunk has a title, and its content starts with a character that is
    not whitespace. *)
Definition well_formed (c : Chunk) : Prop :=
  title c <> "" /\ starts_nonspace (content c) = true.

(** The same of the variables of the chunking loop. *)
Definition good_chunker (st : chunker) : Prop :=
  Forall well_formed (chunks st)
  /\ current_title st <> ""
  /\ Forall (fun p => starts_nonspace p = true) (current_content st).

(** The match that the index makes of a record, for a query vector. *)
Definition hit (env : Env) (qvec : vector) (r : IndexedRecord) : Match :=
  mkMatch (r_id r) (Some (similarity env qvec (r_values r)))
    (Some (r_metadata r)).

(** The second at which [retrieve] reads the clock in world [w]. *)
Definition retrieve_ts (env : Env) (w : World) : Z :=
  Z.quot (clock_us env (ticks w)) MICRO.

(** The services of [example_env], with the embedding service or the
    completion service out of order. *)
Definition faulty_env (embed_ok chat_ok : bool) : Env :=
  mkEnv still_clock 0
    (fun _ => if embed_ok then Ret ([1%Q], 1)
              else Raise (ServiceError "embedding unavailable"))
    (fun _ => None)
    dot
    (fun _ => if chat_ok then Ret (mkChatResponse "ok" 1 1)
              else Raise (ServiceError "completion unavailable"))
    true None None
    (fun _ => Raise (IOError "No such file"))
    (fun _ => Raise (IOError "No such file")).

(** ** The callers in [app.py] *)

(** [style_map.get(response_style, "concise")] of [process_question]. *)
Definition style_map (response_style : string) : string :=
  if String.eqb response_style "Concise" then "concise"
  else if String.eqb response_style "Detailed" then "detailed"
  else if String.eqb response_style "Technical" then "technical"
  else if String.eqb response_style "Beginner Friendly" then "beginner"
  else "concise".

(** ["hi" if st.session_state.language == "Hindi" else "en"]. *)
Definition lang_code (language : string) : string :=
  if String.eqb language "Hindi" then "hi" else "en".

(** What every record written by [upsert_chunks] for [source]
    satisfies. *)
Definition record_invariant (source : string) (r : IndexedRecord) : Prop :=
  exists t x created,
    md_title (r_metadata r) = Some t /\ String.length t <= 200
    /\ md_text (r_metadata r) = Some x /\ String.length x <= 10000
    /\ Py.truthy (Py.strip x) = true
    /\ md_source (r_metadata r) = Some source
    /\ md_created_at (r_metadata r) = Some created
    /\ String.prefix (source ++ "_") (r_id r) = true.

(** The expiry that [upsert_chunks] computes before its loop, and the
    world in which the loop starts. *)
Definition batch_expiry (env : Env) (ttl_hours : Z) (w : World) : option Z :=
  if (ttl_hours >? 0)%Z
  then Some (Z.quot (clock_us env (ticks w) + ttl_hours * 3600 * MICRO
                     - utc_offset env * MICRO) MICRO)
  else None.

Definition batch_start (ttl_hours : Z) (w : World) : World :=
  if (ttl_hours >? 0)%Z
  then mkWorld (S (ticks w)) (store w) (trace w)
  else w.

(** ** Vocabulary of the statements on the reply of the model *)

Definition not_char (x : ascii) (c : ascii) : bool := negb (Ascii.eqb c x).

(** The line starts with a digit, a dash or a star. *)
Definition starts_with_marker (q : string) : bool :=
  match q with
  | String c _ => Py.isdigit c || is_dash_or_star c
  | EmptyString => false
  end.

(** A question as the prompt asks for it: one line without whitespace
    around it, that starts with neither a digit nor a bullet, has at
    most 150 characters and ends with a question mark. *)
Definition is_clean_question (q : string) : bool :=
  String.eqb (Py.strip q) q
  && negb (starts_with_marker q)
  && (String.length q <=? 150)
  && Py.endswith "?" q
  && Py.all_chars (not_char LF) q.

(** [rest] is what is left of [s] after some prefix. *)
Definition is_suffix (rest s : string) : Prop :=
  exists pre, s = pre ++ rest.

(** The services of [example_env] with a completion service that
    replies [content]. *)
Definition reply_env (content : string) : Env :=
  mkEnv still_clock 0
    (fun _ => Ret ([1%Q], 1))
    (fun _ => None)
    dot
    (fun _ => Ret (mkChatResponse content 1 1))
    true None None
    (fun _ => Raise (IOError "No such file"))
    (fun _ => Raise (IOError "No such file")).

(** ** Vocabulary of the statements on headings *)

Definition is_ascii_letter (c : ascii) : bool :=
  Py.isupper_ascii c || Py.islower_ascii c.

Definition is_letter_or_space (c : ascii) : bool :=
  is_ascii_letter c || Py.isspace c.

(** The paragraph starts with [#] or with a letter of the alphabet. *)
Definition starts_like_heading (s : string) : bool :=
  match s with
  | String c _ => is_hash c || is_ascii_letter c
  | EmptyString => false
  end.

(** The pattern [\r\n|\r] of [chunk_by_topic]. *)
Definition crlf_pattern : Re.regex :=
  Re.Alt (Re.Seq (Re.Chr CR) (Re.Chr LF)) (Re.Chr CR).

(** The characters of the titles and of the content of a chunk all
    satisfy [p]. *)
Definition chunk_chars (p : ascii -> bool) (c : Chunk) : Prop :=
  Py.all_chars p (title c) = true /\ Py.all_chars p (content c) = true.

(** The environment with the other SDK of the vector index. *)
Definition with_sdk (new_sdk : bool) (env : Env) : Env :=
  mkEnv (clock_us env) (utc_offset env) (embed_oracle env)
    (upsert_oracle env) (similarity env) (chat_oracle env) new_sdk
    (PyPDF2 env) (docx2txt env) (read_text env) (read_csv env).

(** The keys go down along the list. *)
Definition sorted_desc {X : Type} (key : X -> Q) (l : list X) : Prop :=
  StronglySorted (fun a b => (key b <= key a)%Q) l.

(** Two matches of the list with the same score are the same match. *)
Definition distinct_scores (ms : list Match) : Prop :=
  forall a b, In a ms -> In b ms -> (score_key a == score_key b)%Q -> a = b.

(** ** Web scraping: [scrape_url] *)

(** What [scrape_url] needs from outside: whether [bs4] and [requests]
    are installed, and the result of fetching a page, parsing it,
    dropping the scripts and styles and taking the visible text. *)
Record Web : Type := mkWeb {
  web_libraries : bool;
  visible_text : string -> outcome string;
  (** [urlparse(url).netloc] *)
  urlparse_netloc : string -> outcome string
}.

Definition is_LF (c : ascii) : bool := Ascii.eqb c LF.

(** The pattern [\n\s*\n+]. *)
Definition blank_lines_pattern : Re.regex :=
  Re.Seq (Re.Chr LF) (Re.Seq (Re.star Py.isspace) (Re.plus is_LF)).

(** [re.sub(r'\n\s*\n+', '\n\n', text).strip()]. *)
Definition collapse_blank_lines (text : string) : string :=
  Py.strip (Re.sub false blank_lines_pattern (nl ++ nl) text).

Definition scrape_url (web : Web) (url : string) : outcome string :=
  if negb (web_libraries web) then Ret ""
  else
    match visible_text web url with
    | Ret text => Ret (collapse_blank_lines text)
    | Raise _ => Ret ""
    end.

(** No newline follows [run] newlines so as to make three in a row. *)
Fixpoint lf_runs_ok (run : nat) (s : string) : bool :=
  match s with
  | EmptyString => true
  | String c s' =>
      if is_LF c then (run <? 2) && lf_runs_ok (S run) s'
      else lf_runs_ok 0 s'
  end.

(** The string holds no three newlines in a row. *)
Definition no_triple_newline (s : string) : bool := lf_runs_ok 0 s.

Definition starts_with_LF (s : string) : bool :=
  match s with
  | String c _ => is_LF c
  | EmptyString => false
  end.

(** [s[n:]]. *)
Fixpoint drop (n : nat) (s : string) : string :=
  match n, s with
  | S k, String _ s' => drop k s'
  | _, _ => s
  end.

(** ** Ingesting a web page: [process_url] of [app.py] *)

(** What [process_url] shows to the user. *)
Inductive notice : Type :=
| Success (n_chunks : nat) (name : string)
| ErrorNoContent
| ErrorFailure (e : exn)
| ErrorInvalidURL.

(** [url and url.startswith(('http://', 'https://'))]. *)
Definition valid_url (url : string) : bool :=
  Py.truthy url
  && (Py.startswith "http://" url || Py.startswith "https://" url).

Definition process_url (web : Web) (env : Env) (url : string)
  : World -> notice * World :=
  fun w =>
    if valid_url url
    then
      match scrape_url web url with
      | Raise e => (ErrorFailure e, w)
      | Ret text =>
          if Py.truthy (Py.strip text)
          then
            let chunks := chunk_by_topic text in
            match urlparse_netloc web url with
            | Raise e => (ErrorFailure e, w)
            | Ret host =>
                match upsert_chunks env chunks ("url_" ++ host)
                        DEFAULT_TTL_HOURS w with
                | (Ret _, w') => (Success (List.length chunks) url, w')
                | (Raise e, w') => (ErrorFailure e, w')
                end
            end
          else (ErrorNoContent, w)
      end
    else (ErrorInvalidURL, w).

(** A web whose pages all read [page], and one where fetching fails. *)
Definition example_web (page : string) : Web :=
  mkWeb true (fun _ => Ret page) (fun _ => Ret "example.org").

Definition offline_web : Web :=
  mkWeb true (fun _ => Raise (IOError "connection refused"))
    (fun _ => Ret "example.org").

(** The text is empty or whitespace only. *)
Definition is_blank (s : string) : bool := Py.all_chars Py.isspace s.

(** ** Vocabulary of the statements on the ids of a batch *)

(** [f"{source}_{t}_{i}"]. *)
Definition batch_id (source : string) (t : Z) (i : nat) : string :=
  source ++ "_" ++ Py.str_of_Z t ++ "_" ++ Py.str_of_nat i.

(** The number that a string of decimal digits writes, after [a]. *)
Definition digit_value (c : ascii) : N := N.of_nat (nat_of_ascii c - 48).

Fixpoint decimal_value (s : string) (a : N) : N :=
  match s with
  | EmptyString => a
  | String c s' => decimal_value s' (10 * a + digit_value c)
  end.

(** The string starts with a character of the class [p]. *)
Definition starts_with_class (p : ascii -> bool) (s : string) : bool :=
  match s with
  | String c _ => p c
  | EmptyString => false
  end.

(** A title as the chunker gives it: one of the two default titles, or
    a text that starts with none of [#], [:], [-] and whitespace. *)
Definition clean_title (t : string) : Prop :=
  t = "General" \/ t = "Untitled"
  \/ (t <> "" /\ starts_with_class is_title_junk t = false).

(** ** Vocabulary of the statements on the relevance gate *)

(** The score that a match carries; a match without one counts for 0. *)
Definition score_of (m : Match) : Q :=
  match m_score m with
  | Some q => q
  | None => 0%Q
  end.

Definition reaches_min_score (m : Match) : Prop :=
  (MIN_SCORE <= score_of m)%Q.

Definition below_min_score (m : Match) : Prop :=
  (score_of m < MIN_SCORE)%Q.

(** [sel] is made of exactly the elements of [l] that satisfy [P], in
    the order of [l]. *)
Inductive selection {X : Type} (P : X -> Prop) : list X -> list X -> Prop :=
| selection_nil : selection P [] []
| selection_keep (x : X) (l sel : list X) :
    P x -> selection P l sel -> selection P (x :: l) (x :: sel)
| selection_drop (x : X) (l sel : list X) :
    ~ P x -> selection P l sel -> selection P (x :: l) sel.

(** ** More environments for the examples *)

(** The services of [example_env], with an embedding service that fails
    on the text "bad". *)
Definition picky_env (clock : nat -> Z) : Env :=
  mkEnv clock 0
    (fun text => if String.eqb text "bad"
                 then Raise (ServiceError "embedding unavailable")
                 else Ret ([1%Q], 1))
    (fun _ => None)
    dot
    (fun _ => Ret (mkChatResponse "ok" 1 1))
    true None None
    (fun _ => Raise (IOError "No such file"))
    (fun _ => Raise (IOError "No such file")).


(** The character is in the ASCII range. *)
Definition is_ascii (c : ascii) : bool := nat_of_ascii c <? 128.

(** ** Sanity checks of the primitives on concrete inputs *)

Example str_of_nat_ex : Py.str_of_nat 1024 = "1024".
Proof. reflexivity. Qed.

Example format_3f_ex :
  Py.format_3f (9 # 10) = "0.900" /\ Py.format_3f (1 # 16) = "0.062"
  /\ Py.format_3f (- (1 # 10000)) = "-0.000" /\ Py.format_3f 0 = "0.000"
  /\ Py.format_3f (12345 # 1000) = "12.345".
Proof. repeat split; reflexivity. Qed.

Example split_ex :
  Py.split "ab" "xabyabab" = ["x"; "y"; ""; ""]
  /\ Py.split "aa" "aaa" = [""; "a"] /\ Py.split "aa" "" = [""].
Proof. repeat split; reflexivity. Qed.

Example strip_ex : Py.strip "  a b
 " = "a b" /\ Py.strip "   " = "".
Proof. split; reflexivity. Qed.

Example sub_crlf_ex :
  Re.sub false (Re.Alt (Re.Seq (Re.Chr CR) (Re.Chr LF)) (Re.Chr CR)) nl
    (String "a" (String CR (String LF (String "b" (String CR "c")))))
  = String "a" (String LF (String "b" (String LF "c"))).
Proof. reflexivity. Qed.

Example is_heading_ex :
  is_heading "# Intro" = true /\ is_heading "## A" = true
  /\ is_heading "#### deep" = false /\ is_heading "#tag" = false
  /\ is_heading "chapter 12: x" = true /\ is_heading "SECTION  3" = true
  /\ is_heading "INTRODUCTION" = true /\ is_heading "ab cd" = false
  /\ is_heading "1. first" = false.
Proof. repeat split; reflexivity. Qed.

Example heading_title_ex :
  heading_title "## Intro " = "Intro" /\ heading_title "# :-" = "Untitled"
  /\ heading_title "Chapter 1" = "Chapter 1".
Proof. repeat split; reflexivity. Qed.

Example splitext_ex :
  splitext_ext "a/b.c/notes.MD" = ".MD" /\ splitext_ext "a.b/c" = ""
  /\ splitext_ext ".bashrc" = "" /\ splitext_ext "x.tar.gz" = ".gz"
  /\ splitext_ext "dir/..pdf" = "" /\ splitext_ext "f." = ".".
Proof. repeat split; reflexivity. Qed.

Example clean_line_ex :
  clean_line "  1. What is a list?  " = Some "What is a list?"
  /\ clean_line "- Why?" = Some "Why?" /\ clean_line "2) * How?" = Some "How?"
  /\ clean_line "Not a question" = None /\ clean_line "   " = None
  /\ clean_line "12 What?" = Some "12 What?".
Proof. repeat split; reflexivity. Qed.

Example chunk_by_topic_ex :
  chunk_by_topic
    ("## Setup" ++ nl ++ nl ++ "1. install it; 2. run it." ++ nl ++ nl
     ++ "## Usage" ++ nl ++ nl ++ "1) call f.")
  = [mkChunk "Setup" ("## Setup" ++ nl ++ nl ++ "1. install it; 2. run it.");
     mkChunk "Usage" ("## Usage" ++ nl ++ nl ++ "1) call f.")].
Proof. reflexivity. Qed.

(** ** The topic chunker *)

Section ChunkerFacts.

Lemma flush_length (st : chunker) :
  List.length (flush st)
  = List.length (chunks st)
    + (if nonempty (current_content st) then 1 else 0).
Proof.
  unfold flush. destruct (nonempty (current_content st)).
  - rewrite length_app. reflexivity.
  - lia.
Qed.

Lemma nonempty_snoc {A : Type} (l : list A) (x : A) :
  nonempty (l ++ [x])%list = true.
Proof. destruct l; reflexivity. Qed.

(** The loop and the final flush, from any state of the loop: one
    chunk per heading still to come, and one more when the buffer is
    not empty or the next paragraph goes into it. *)
Lemma chunk_loop_length (ps : list string) :
  forall st : chunker,
    List.length (flush (fold_left chunk_step ps st))
    = List.length (chunks st) + heading_count ps
      + (if nonempty (current_content st) || has_preamble ps
         then 1 else 0).
Proof.
  induction ps as [|p ps IH]; intros st.
  - simpl. rewrite flush_length, orb_false_r. unfold heading_count.
    simpl. lia.
  - simpl fold_left. rewrite IH. unfold chunk_step, heading_count.
    simpl filter. simpl has_preamble.
    destruct (is_heading p) eqn:Hp; simpl.
    + rewrite flush_length.
      destruct (nonempty (current_content st)); simpl; lia.
    + rewrite nonempty_snoc. rewrite orb_true_r. simpl. lia.
Qed.

(** Without a heading the loop only fills the buffer. *)
Lemma chunk_loop_no_heading (ps : list string) :
  forall st : chunker,
    heading_count ps = 0 ->
    fold_left chunk_step ps st
    = mkChunker (chunks st) (current_title st)
        (current_content st ++ ps)%list.
Proof.
  induction ps as [|p ps IH]; intros st Hk.
  - simpl. rewrite app_nil_r. destruct st; reflexivity.
  - unfold heading_count in Hk. simpl in Hk.
    destruct (is_heading p) eqn:Hp; [discriminate|].
    simpl fold_left. unfold chunk_step at 2. rewrite Hp.
    rewrite IH by exact Hk. simpl. rewrite <- app_assoc. reflexivity.
Qed.

End ChunkerFacts.

(** The counts of the chunker, when headings are counted with the
    heading test of the code itself: a text without paragraphs gives no
    chunk; a text with paragraphs none of which passes the test gives
    exactly one chunk, titled "General", whose content is the paragraphs
    joined by blank lines; and a text with [k] paragraphs that pass it
    gives [k] chunks, plus one exactly when the first paragraph does
    not. *)
Lemma chunk_by_topic_counts (text : string) :
  (paragraphs text = [] -> chunk_by_topic text = [])
  /\ (paragraphs text <> [] -> heading_count (paragraphs text) = 0 ->
      chunk_by_topic text
      = [mkChunk "General" (Py.join (nl ++ nl) (paragraphs text))])
  /\ List.length (chunk_by_topic text)
     = heading_count (paragraphs text)
       + (if has_preamble (paragraphs text) then 1 else 0).
Proof.
  unfold chunk_by_topic, chunk_paragraphs. repeat split.
  - intros ->. reflexivity.
  - intros Hne Hk. rewrite chunk_loop_no_heading by exact Hk.
    simpl. unfold flush. simpl.
    destruct (paragraphs text); [contradiction|reflexivity].
  - rewrite chunk_loop_length. reflexivity.
Qed.

(** C7.  With the heading pattern of the specification the counts of
    the claim fail on the code.  The two paragraphs "Hello world." and
    "Some more text." are no headings for the specification, so the
    claim gives one chunk titled "General" that holds both; the code
    takes each of them for a heading and returns two chunks, none
    titled "General".  In the scenario of the specification the only
    heading is the first paragraph, so the claim gives one chunk; the
    code returns two.  The cause lies in the heading test: the pattern
    is compiled with [re.IGNORECASE] and is not anchored at its end. *)
Theorem chunk_by_topic_counts_diverge :
  let p1 := "Hello world." in
  let p2 := "Some more text." in
  let prose := p1 ++ nl ++ nl ++ p2 in
  let intro := "# Intro" ++ nl ++ p1 in
  let scenario := intro ++ nl ++ nl ++ p2 in
  map HeadingSpec.heading_per_spec [p1; p2] = [false; false]
  /\ chunk_by_topic prose = [mkChunk p1 p1; mkChunk p2 p2]
  /\ chunk_by_topic prose
     <> [mkChunk "General" (Py.join (nl ++ nl) [p1; p2])]
  /\ map HeadingSpec.heading_per_spec [intro; p2] = [true; false]
  /\ List.length (chunk_by_topic scenario) = 2.
Proof.
  cbv zeta. split; [reflexivity|]. split; [reflexivity|].
  split; [vm_compute; discriminate|]. split; reflexivity.
Qed.

(** ** The heading pattern *)

(** C4.  The heading test of the code departs from the three cases of
    the specification: under [re.IGNORECASE] the class [[A-Z]] also
    takes lowercase letters, and [match] does not anchor the pattern at
    the end of the paragraph, so the plain sentence "Some more text." is
    a heading for the code and none for the specification; the
    two-paragraph scenario of the specification is cut into two
    chunks. *)
Theorem heading_pattern_accepts_prose :
  is_heading "Some more text." = true
  /\ HeadingSpec.heading_per_spec "Some more text." = false
  /\ chunk_by_topic
       ("# Intro" ++ nl ++ "Hello world." ++ nl ++ nl ++ "Some more text.")
     = [mkChunk ("Intro" ++ nl ++ "Hello world.")
          ("# Intro" ++ nl ++ "Hello world.");
        mkChunk "Some more text." "Some more text."].
Proof. repeat split; reflexivity. Qed.

(** The same on a line of 51 capitals, one more than the 50 of the
    specification, and on a long line of capitals followed by prose. *)
Lemma heading_pattern_length_bounds :
  is_heading (Py.replicate 51 "A") = true
  /\ HeadingSpec.heading_per_spec (Py.replicate 51 "A") = false
  /\ is_heading (Py.replicate 60 "A" ++ " and then lowercase prose.") = true.
Proof. repeat split; reflexivity. Qed.

(** ** File extraction *)

Lemma extract_text_never_raises (env : Env) (filepath : string) :
  exists text, extract_text_from_file env filepath = Ret text.
Proof.
  unfold extract_text_from_file.
  destruct (extract_body env filepath); eauto.
Qed.

(** C3.  A file whose extension has no handler: the [ValueError] is
    raised inside the [try] block, whose handler catches every
    [Exception], so the caller gets the empty string and no error. *)
Theorem extract_unsupported_is_swallowed (env : Env) :
  extract_body env "notes.md" = Raise (ValueError "Unsupported file: .md")
  /\ extract_text_from_file env "notes.md" = Ret "".
Proof.
  assert (H : extract_body env "notes.md"
              = Raise (ValueError "Unsupported file: .md")).
  { unfold extract_body.
    change (Py.lower (splitext_ext "notes.md")) with ".md".
    change (String.eqb ".md" ".pdf") with false.
    change (String.eqb ".md" ".txt") with false.
    change (String.eqb ".md" ".docx") with false.
    change (String.eqb ".md" ".csv") with false.
    cbv iota. reflexivity. }
  split; [exact H|].
  unfold extract_text_from_file. rewrite H. reflexivity.
Qed.

(** The same for every extension without a handler. *)
Lemma extract_unsupported_general (env : Env) (filepath : string) :
  let ext := Py.lower (splitext_ext filepath) in
  String.eqb ext ".pdf" = false -> String.eqb ext ".txt" = false ->
  String.eqb ext ".docx" = false -> String.eqb ext ".csv" = false ->
  extract_text_from_file env filepath = Ret "".
Proof.
  intros ext H1 H2 H3 H4. unfold extract_text_from_file, extract_body.
  fold ext. rewrite H1, H2, H3, H4. reflexivity.
Qed.

(** ** Socratic decomposition *)

Section StringFacts.

Lemma substring_split (s : string) :
  forall m, m <= String.length s ->
    s = String.substring 0 m s
        ++ String.substring m (String.length s - m) s.
Proof.
  induction s as [|c s IH]; intros [|m] Hm; simpl in *.
  - reflexivity.
  - lia.
  - f_equal. clear. induction s as [|d s IHs]; simpl; congruence.
  - f_equal. apply IH. lia.
Qed.

(** [endswith] holds only of a string that ends with the suffix. *)
Lemma endswith_sound (p s : string) :
  Py.endswith p s = true -> exists pre, s = pre ++ p.
Proof.
  unfold Py.endswith. intros H. apply andb_true_iff in H as [Hk He].
  apply Nat.leb_le in Hk. apply String.eqb_eq in He.
  exists (String.substring 0 (String.length s - String.length p) s).
  rewrite <- He at 2.
  replace (String.length p)
    with (String.length s - (String.length s - String.length p)) at 3
    by lia.
  apply substring_split. lia.
Qed.

End StringFacts.

(** A line that the loop keeps ends in a question mark and has at most
    150 characters. *)
Lemma clean_line_valid (line q : string) :
  clean_line line = Some q ->
  (exists pre, q = pre ++ "?") /\ String.length q <= 150.
Proof.
  unfold clean_line.
  destruct (negb (Py.truthy (Py.strip line))); [discriminate|].
  match goal with
  | |- (if (150 <? String.length ?l) || negb (Py.endswith "?" ?l)
        then _ else _) = _ -> _ => set (cleaned := l)
  end.
  destruct (150 <? String.length cleaned) eqn:Hlen; [discriminate|].
  destruct (Py.endswith "?" cleaned) eqn:Hend; [|discriminate].
  simpl. intros [= <-]. split.
  - apply endswith_sound. exact Hend.
  - apply Nat.ltb_ge in Hlen. exact Hlen.
Qed.

Lemma cleaned_questions_valid (raw : string) :
  Forall (fun q => (exists pre, q = pre ++ "?") /\ String.length q <= 150)
    (cleaned_questions raw).
Proof.
  apply Forall_forall. intros q Hq. unfold cleaned_questions in Hq.
  apply in_flat_map in Hq as (line & _ & Hin).
  destruct (clean_line line) as [q'|] eqn:Hc; [|contradiction].
  destruct Hin as [<-|[]]. eapply clean_line_valid. exact Hc.
Qed.

Lemma Forall_firstn {A : Type} (P : A -> Prop) (n : nat) (l : list A) :
  Forall P l -> Forall P (firstn n l).
Proof.
  intros H. revert n. induction H; intros [|n]; simpl; auto.
Qed.

(** C10.  Whatever the completion service does, an error included,
    [generate_sub_questions] returns: either the single fallback
    question, or between one and three strings, each ending in a
    question mark and of at most 150 characters. *)
Theorem generate_sub_questions_total
    (env : Env) (main_question lang : string) (w : World) :
  exists (qs : list string) (w' : World),
    generate_sub_questions env main_question lang w = (Ret qs, w')
    /\ (qs = [fallback_question main_question]
        \/ (qs <> [] /\ List.length qs <= 3
            /\ Forall (fun q => (exists pre, q = pre ++ "?")
                                /\ String.length q <= 150) qs)).
Proof.
  cbv [generate_sub_questions try_except bind chat_completion log
       lift_outcome ret].
  destruct (chat_oracle env _) as [r|e].
  - set (cleaned := cleaned_questions (Py.strip (resp_content r))).
    destruct (List.length cleaned =? 0) eqn:Hz.
    + eexists. eexists. split; [reflexivity|]. left. reflexivity.
    + eexists. eexists. split; [reflexivity|]. right.
      apply Nat.eqb_neq in Hz. repeat split.
      * destruct cleaned; [simpl in Hz; lia|discriminate].
      * rewrite length_firstn. lia.
      * apply Forall_firstn. apply cleaned_questions_valid.
  - eexists. eexists. split; [reflexivity|]. left. reflexivity.
Qed.

(** ** Context assembly *)

Section JoinFacts.

Lemma join_cons (sep x : string) (l : list string) :
  l <> [] -> Py.join sep (x :: l) = x ++ sep ++ Py.join sep l.
Proof. destruct l; [contradiction|reflexivity]. Qed.

Lemma append_empty_r (s : string) : s ++ "" = s.
Proof. induction s; simpl; congruence. Qed.

Lemma append_assoc (a b c : string) : (a ++ b) ++ c = a ++ b ++ c.
Proof. induction a; simpl; congruence. Qed.

Lemma length_append (a b : string) :
  String.length (a ++ b) = String.length a + String.length b.
Proof. induction a; simpl; congruence. Qed.

(** Joining more strings only extends the result. *)
Lemma join_app_extends (sep : string) (l t : list string) :
  exists r, Py.join sep (l ++ t)%list = Py.join sep l ++ r.
Proof.
  induction l as [|x l IH].
  - exists (Py.join sep t). reflexivity.
  - destruct l as [|y l].
    + destruct t as [|z t].
      * exists "". rewrite append_empty_r. reflexivity.
      * exists (sep ++ Py.join sep (z :: t)). reflexivity.
    + destruct IH as [r Hr]. exists r.
      change ((x :: y :: l) ++ t)%list with (x :: (y :: l) ++ t)%list.
      rewrite join_cons by (simpl; discriminate). rewrite Hr.
      rewrite (join_cons sep x (y :: l)) by discriminate.
      rewrite !append_assoc. reflexivity.
Qed.

Lemma join_length (sep : string) (l : list string) :
  String.length (Py.join sep l)
  = total_length l + String.length sep * (List.length l - 1).
Proof.
  induction l as [|x l IH].
  - simpl. lia.
  - destruct l as [|y l].
    + simpl. lia.
    + rewrite join_cons by discriminate.
      rewrite !length_append, IH. simpl. lia.
Qed.

End JoinFacts.

Section PackFacts.

Lemma total_length_cons (x : string) (l : list string) :
  total_length (x :: l) = String.length x + total_length l.
Proof. reflexivity. Qed.

Lemma pack_cons (i size : nat) (m : Match) (rest : list Match) :
  pack i size (m :: rest)
  = if negb (Py.truthy (match_text m)) then pack (S i) size rest
    else if MAX_CONTEXT_CHARS
            <? size + String.length (format_chunk i m (match_text m))
         then []
         else format_chunk i m (match_text m)
              :: pack (S i)
                   (size + String.length (format_chunk i m (match_text m)))
                   rest.
Proof. reflexivity. Qed.

(** What the guard of the loop keeps: the sizes of the parts add up
    to the budget at most. *)
Lemma pack_within_budget (ms : list Match) :
  forall i size,
    size <= MAX_CONTEXT_CHARS ->
    size + total_length (pack i size ms) <= MAX_CONTEXT_CHARS.
Proof.
  induction ms as [|m ms IH]; intros i size Hs.
  - simpl. lia.
  - rewrite pack_cons. destruct (negb (Py.truthy (match_text m))).
    + apply IH. exact Hs.
    + destruct (MAX_CONTEXT_CHARS <? _) eqn:Hb.
      * simpl. lia.
      * rewrite total_length_cons. apply Nat.ltb_ge in Hb.
        specialize (IH (S i) _ Hb). lia.
Qed.

(** One more match at the end of the ranking adds at most one part at
    the end. *)
Lemma pack_snoc (l : list Match) (m : Match) :
  forall i size,
    exists tail, pack i size (l ++ [m]) = (pack i size l ++ tail)%list.
Proof.
  induction l as [|x l IH]; intros i size.
  - exists (pack i size [m]). reflexivity.
  - change ((x :: l) ++ [m])%list with (x :: (l ++ [m]))%list.
    rewrite !pack_cons. destruct (negb (Py.truthy (match_text x))).
    + apply IH.
    + destruct (MAX_CONTEXT_CHARS <? _).
      * exists []. reflexivity.
      * destruct (IH (S i) (size + String.length
                                     (format_chunk i x (match_text x))))
          as [tail Ht].
        exists tail. rewrite Ht. reflexivity.
Qed.

End PackFacts.

(** The output is bounded by the budget plus one separator between each
    two parts: the separators of the final join are not counted by the
    guard. *)
Lemma build_context_length_bound (matches : list Match) :
  String.length (build_context matches)
  <= MAX_CONTEXT_CHARS
     + (List.length (pack 1 0 (sort_desc score_key matches)) - 1).
Proof.
  unfold build_context. rewrite join_length.
  pose proof (pack_within_budget (sort_desc score_key matches) 1 0
                (Nat.le_0_l _)) as H.
  change (String.length nl) with 1. lia.
Qed.

(** C1.  Two matches of 3481 characters each: both formatted chunks, of
    3500 characters, pass the guard (3500 + 3500 = 7000), and the join
    puts a newline between them, so the output has 7001 characters, one
    more than [MAX_CONTEXT_CHARS]. *)
Theorem build_context_exceeds_budget :
  let ms := [match_of "a" (9 # 10) (Py.replicate 3481 "x");
             match_of "b" (8 # 10) (Py.replicate 3481 "y")] in
  String.length (build_context ms) = 7001
  /\ MAX_CONTEXT_CHARS < String.length (build_context ms).
Proof.
  assert (H : String.length
                (build_context
                   [match_of "a" (9 # 10) (Py.replicate 3481 "x");
                    match_of "b" (8 # 10) (Py.replicate 3481 "y")])
              = 7001) by (vm_compute; reflexivity).
  cbv zeta. rewrite H. split; [reflexivity|].
  apply Nat.ltb_lt. vm_compute. reflexivity.
Qed.

Section SortFacts.
Context {X : Type}.
Variable key : X -> Q.

Lemma insert_desc_In (x y : X) (l : list X) :
  In y (insert_desc key x l) -> y = x \/ In y l.
Proof.
  induction l as [|z l IH]; simpl.
  - intros [<-|[]]. left. reflexivity.
  - destruct (Qle_bool (key z) (key x)).
    + intros [<-|H]; [left; reflexivity|right; exact H].
    + intros [<-|H]; [right; left; reflexivity|].
      destruct (IH H) as [->|H']; [left; reflexivity|right; right; exact H'].
Qed.

Lemma sort_desc_In (y : X) (l : list X) :
  In y (sort_desc key l) -> In y l.
Proof.
  induction l as [|x l IH]; simpl; [tauto|].
  intros H. apply insert_desc_In in H as [->|H]; auto.
Qed.

(** An element of a key below all the others is ranked last. *)
Lemma insert_desc_last (m : X) (l : list X) :
  (forall y, In y l -> (key m < key y)%Q) ->
  insert_desc key m l = (l ++ [m])%list.
Proof.
  induction l as [|y l IH]; intros Hlt; simpl.
  - reflexivity.
  - destruct (Qle_bool (key y) (key m)) eqn:E.
    + apply Qle_bool_iff in E.
      exfalso. apply (Qlt_not_le (key m) (key y)); [|exact E].
      apply Hlt. left. reflexivity.
    + f_equal. apply IH. intros z Hz. apply Hlt. right. exact Hz.
Qed.

(** An insertion never goes behind a last element of a key that is
    not greater. *)
Lemma insert_desc_snoc (x m : X) (l : list X) :
  (key m <= key x)%Q ->
  insert_desc key x (l ++ [m]) = (insert_desc key x l ++ [m])%list.
Proof.
  intros Hle. induction l as [|y l IH]; simpl.
  - apply Qle_bool_iff in Hle. rewrite Hle. reflexivity.
  - destruct (Qle_bool (key y) (key x)).
    + reflexivity.
    + rewrite IH. reflexivity.
Qed.

(** The stable sort ranks last the element that has the lowest key
    and, among those of that key, comes last in the input. *)
Lemma sort_desc_last (pre post : list X) (m : X) :
  (forall y, In y pre -> (key m <= key y)%Q) ->
  (forall y, In y post -> (key m < key y)%Q) ->
  sort_desc key (pre ++ m :: post)
  = (sort_desc key (pre ++ post) ++ [m])%list.
Proof.
  intros Hpre Hpost. induction pre as [|x pre IH]; simpl.
  - apply insert_desc_last. intros y Hy. apply Hpost.
    apply sort_desc_In. exact Hy.
  - rewrite IH.
    + apply insert_desc_snoc. apply Hpre. left. reflexivity.
    + intros y Hy. apply Hpre. right. exact Hy.
Qed.

End SortFacts.

(** Removing the match that is ranked last leaves a prefix of the
    output. *)
Lemma build_context_remove_last_prefix (pre post : list Match) (m : Match) :
  (forall m', In m' pre -> (score_key m <= score_key m')%Q) ->
  (forall m', In m' post -> (score_key m < score_key m')%Q) ->
  exists rest,
    build_context (pre ++ m :: post) = build_context (pre ++ post) ++ rest.
Proof.
  intros Hpre Hpost. unfold build_context.
  rewrite (sort_desc_last score_key pre post m Hpre Hpost).
  destruct (pack_snoc (sort_desc score_key (pre ++ post)) m 1 0)
    as [tail ->].
  apply join_app_extends.
Qed.

(** C8, as stated: removing a match of lowest score never lengthens the
    output.  It fails where the lowest score is shared: of two matches
    of score 0.5, the first one ranks first and its chunk of 20
    characters leaves no room for the second one; once it is removed,
    the second one fits, with 7000 characters. *)
Lemma build_context_grows_on_tie :
  ~ (forall (pre post : list Match) (m : Match),
        lowest_scored m (pre ++ m :: post) ->
        String.length (build_context (pre ++ post))
        <= String.length (build_context (pre ++ m :: post))).
Proof.
  intros H.
  pose (a := match_of "a" (1 # 2) "a").
  pose (b := match_of "b" (1 # 2) (Py.replicate 6981 "b")).
  specialize (H [] [b] a).
  assert (Hlow : lowest_scored a ([] ++ a :: [b])).
  { split; [left; reflexivity|].
    intros m' [<-|[<-|[]]]; vm_compute; discriminate. }
  specialize (H Hlow). apply Nat.leb_le in H.
  vm_compute in H. discriminate.
Qed.

(** C8, amended: removing the match that the stable sort ranks last,
    the one of lowest score that comes last in the input among those of
    that score, never lengthens the output. *)
Theorem build_context_remove_last_ranked
    (pre post : list Match) (m : Match) :
  (forall m', In m' pre -> (score_key m <= score_key m')%Q) ->
  (forall m', In m' post -> (score_key m < score_key m')%Q) ->
  String.length (build_context (pre ++ post))
  <= String.length (build_context (pre ++ m :: post)).
Proof.
  intros Hpre Hpost.
  destruct (build_context_remove_last_prefix pre post m Hpre Hpost)
    as [rest ->].
  rewrite length_append. lia.
Qed.

Lemma build_context_remove_last_ranked_witness :
  String.length
    (build_context ([match_of "x" (9 # 10) "first"]
                    ++ [match_of "y" (5 # 10) "second"]))
  <= String.length
       (build_context ([match_of "x" (9 # 10) "first"]
                       ++ match_of "m" (3 # 10) "third"
                          :: [match_of "y" (5 # 10) "second"])).
Proof.
  apply (build_context_remove_last_ranked
           [match_of "x" (9 # 10) "first"]
           [match_of "y" (5 # 10) "second"]
           (match_of "m" (3 # 10) "third")).
  - intros m' [<-|[]]. vm_compute. discriminate.
  - intros m' [<-|[]]. vm_compute. reflexivity.
Defined.

(** ** Upsert with TTL *)

Section UpsertFacts.
Variable env : Env.
Variable source : string.
Variable expiry : option Z.

Lemma upserted_app (a b : list event) :
  upserted (a ++ b) = (upserted a ++ upserted b)%list.
Proof. apply flat_map_app. Qed.

Lemma embedded_app (a b : list event) :
  embedded (a ++ b) = (embedded a ++ embedded b)%list.
Proof. apply flat_map_app. Qed.

(** One turn of the loop that does not raise: a chunk that fails the
    guard leaves the world as it is; for another one the text is
    embedded and one record is handed to the index. *)
Lemma upsert_one_run (i : nat) (c : Chunk) (w w' : World) :
  upsert_one env source expiry (i, c) w = (Ret tt, w') ->
  if kept c
  then exists r,
      trace w' = (trace w ++ [EvEmbed (stored_text c); EvUpsert r])%list
      /\ md_text (r_metadata r) = Some (stored_text c)
      /\ md_expires_at (r_metadata r) = attached_expiry expiry
      /\ md_created_at (r_metadata r)
         = Some (Z.quot (clock_us env (S (ticks w))) MICRO)
  else w' = w.
Proof.
  unfold upsert_one, kept, stored_text.
  set (text := Py.take 10000 (content c)).
  set (heading := Py.take 200 (title c)).
  destruct (Py.truthy (Py.strip text)); cbn [negb].
  - cbv [bind embed_text log lift_outcome int_time read_clock ret
           index_upsert].
    cbn [ticks store trace].
    destruct (embed_oracle env _) as [[vec n]|e];
      [|intros H; discriminate H].
    match goal with
    | |- context [upsert_oracle env ?r] =>
        destruct (upsert_oracle env r);
          intros H; [discriminate H|]; exists r
    end.
    injection H as <-. cbn [trace r_metadata md_text md_expires_at
                              md_created_at].
    rewrite <- app_assoc. repeat split; reflexivity.
  - unfold ret. intros [= <-]. reflexivity.
Qed.

(** The loop, when it does not raise. *)
Lemma upsert_loop_run (cs : list Chunk) :
  forall (i : nat) (w w' : World),
    for_each (enumerate_from i cs) (upsert_one env source expiry) w
    = (Ret tt, w') ->
    exists recs,
      upserted (trace w') = (upserted (trace w) ++ recs)%list
      /\ embedded (trace w')
         = (embedded (trace w) ++ map stored_text (filter kept cs))%list
      /\ Forall2 (fun c r =>
                    md_text (r_metadata r) = Some (stored_text c)
                    /\ md_expires_at (r_metadata r)
                       = attached_expiry expiry)
           (filter kept cs) recs.
Proof.
  induction cs as [|c cs IH]; intros i w w' Hrun.
  - injection Hrun as <-. exists []. rewrite !app_nil_r.
    repeat split. constructor.
  - cbn [enumerate_from for_each] in Hrun. unfold bind in Hrun at 1.
    destruct (upsert_one env source expiry (i, c) w) as [[[]|e] w1] eqn:H1;
      [|discriminate Hrun].
    apply upsert_one_run in H1. apply IH in Hrun as (recs & Hu & He & Hf).
    simpl filter. destruct (kept c).
    + destruct H1 as (r & Ht & Htext & Hexp & _).
      exists (r :: recs). rewrite Hu, He, Ht.
      rewrite upserted_app, embedded_app. simpl.
      rewrite <- !app_assoc. repeat split. constructor; auto.
    + subst w1. exists recs. auto.
Qed.

End UpsertFacts.

(** The whole of [upsert_chunks], when it does not raise: the expiry is
    computed from one reading of the clock, before the loop. *)
Lemma upsert_chunks_run (env : Env) (cs : list Chunk) (source : string)
    (ttl_hours : Z) (w w' : World) :
  upsert_chunks env cs source ttl_hours w = (Ret tt, w') ->
  exists w0,
    trace w0 = trace w
    /\ for_each (enumerate_from 0 cs)
         (upsert_one env source
            (if (ttl_hours >? 0)%Z
             then Some (Z.quot (clock_us env (ticks w)
                                + ttl_hours * 3600 * MICRO
                                - utc_offset env * MICRO) MICRO)
             else None)) w0
       = (Ret tt, w').
Proof.
  unfold upsert_chunks. destruct (ttl_hours >? 0)%Z.
  - cbv [bind int_utcnow_plus_hours read_clock ret]. intros H.
    eexists. split; [|exact H]. reflexivity.
  - cbv [bind ret]. intros H. exists w. split; [reflexivity|exact H].
Qed.

Section TakeFacts.



End TakeFacts.




Section ClockFacts.

Lemma quot_add_seconds (t k : Z) :
  (0 <= t)%Z -> (0 <= k)%Z ->
  Z.quot (t + k * MICRO) MICRO = (Z.quot t MICRO + k)%Z.
Proof.
  intros Ht Hk. unfold MICRO.
  rewrite !Z.quot_div_nonneg by nia.
  apply Z.div_add. lia.
Qed.

End ClockFacts.

(** C5, as stated: the expiry of a record is its own creation second
    plus the TTL.  It fails as soon as the clock moves on between the
    reading taken before the loop, from which the expiry is computed,
    and the reading taken for [created_at]: here the first reading is
    second 1000 and [created_at] is read at second 1002, with a TTL of
    one hour. *)
Lemma upsert_expiry_not_created_plus_ttl :
  let w' :=
    snd (upsert_chunks (example_env true ticking_clock)
           [mkChunk "t" "hello"] "s" 1 empty_world) in
  exists r,
    upserted (trace w') = [r]
    /\ md_created_at (r_metadata r) = Some 1002%Z
    /\ md_expires_at (r_metadata r) = Some 4600%Z
    /\ (4600 <> 1002 + 1 * 3600)%Z.
Proof.
  vm_compute. eexists. repeat split. discriminate.
Qed.

Section ExpiryFacts.
Variable env : Env.
Variable source : string.
Variable expiry : option Z.

(** One turn of the loop, whatever its outcome: the records that it
    hands to the index carry the expiry of the batch. *)
Lemma upsert_one_expiry (i : nat) (c : Chunk) (w w' : World)
    (o : outcome unit) :
  upsert_one env source expiry (i, c) w = (o, w') ->
  exists recs,
    upserted (trace w') = (upserted (trace w) ++ recs)%list
    /\ Forall (fun r => md_expires_at (r_metadata r)
                        = attached_expiry expiry) recs.
Proof.
  unfold upsert_one.
  set (text := Py.take 10000 (content c)).
  set (heading := Py.take 200 (title c)).
  destruct (Py.truthy (Py.strip text)); cbn [negb].
  - cbv [bind embed_text log lift_outcome int_time read_clock ret
           index_upsert].
    cbn [ticks store trace].
    destruct (embed_oracle env _) as [[vec n]|e].
    + match goal with
      | |- context [upsert_oracle env ?r] =>
          destruct (upsert_oracle env r); intros H; exists [r]
      end; injection H as _ <-; cbn [trace]; rewrite !upserted_app;
        cbn [upserted flat_map app]; rewrite app_nil_r;
        (split; [reflexivity|]); constructor; auto.
    + intros H. injection H as _ <-. exists []. cbn [trace].
      rewrite upserted_app. cbn [upserted flat_map app].
      split; [reflexivity|constructor].
  - unfold ret. intros H. injection H as _ <-. exists [].
    rewrite app_nil_r. split; [reflexivity|constructor].
Qed.

(** The loop, whatever its outcome. *)
Lemma upsert_loop_expiry (cs : list Chunk) :
  forall (i : nat) (w w' : World) (o : outcome unit),
    for_each (enumerate_from i cs) (upsert_one env source expiry) w
    = (o, w') ->
    exists recs,
      upserted (trace w') = (upserted (trace w) ++ recs)%list
      /\ Forall (fun r => md_expires_at (r_metadata r)
                          = attached_expiry expiry) recs.
Proof.
  induction cs as [|c cs IH]; intros i w w' o Hrun.
  - injection Hrun as _ <-. exists []. rewrite app_nil_r.
    split; [reflexivity|constructor].
  - cbn [enumerate_from for_each] in Hrun. unfold bind in Hrun at 1.
    destruct (upsert_one env source expiry (i, c) w) as [[[]|e] w1] eqn:H1.
    + apply upsert_one_expiry in H1 as (r1 & Hu1 & Hf1).
      apply IH in Hrun as (r2 & Hu2 & Hf2).
      exists (r1 ++ r2)%list. rewrite Hu2, Hu1, app_assoc.
      split; [reflexivity|]. apply Forall_app. split; assumption.
    + injection Hrun as _ <-. apply upsert_one_expiry in H1. exact H1.
Qed.

End ExpiryFacts.

(** The whole of [upsert_chunks], whatever its outcome: the expiry is
    computed from one reading of the clock, before the loop. *)
Lemma upsert_chunks_batch_expiry (env : Env) (cs : list Chunk)
    (source : string) (ttl_hours : Z) (w w' : World) (o : outcome unit) :
  upsert_chunks env cs source ttl_hours w = (o, w') ->
  exists recs,
    upserted (trace w') = (upserted (trace w) ++ recs)%list
    /\ Forall (fun r => md_expires_at (r_metadata r)
                        = attached_expiry (batch_expiry env ttl_hours w))
         recs.
Proof.
  unfold upsert_chunks, batch_expiry. destruct (ttl_hours >? 0)%Z.
  - cbv [bind int_utcnow_plus_hours read_clock ret]. intros H.
    apply upsert_loop_expiry in H. exact H.
  - cbv [bind ret]. intros H. apply upsert_loop_expiry in H. exact H.
Qed.

(** C5, amended: with a positive TTL every record of a batch, also of a
    batch that fails part-way, carries the same expiry, computed once
    before the loop from one reading of the clock and not from the
    [created_at] of the record, which is read again for each record.  On
    a host whose local time is UTC, with [t0 >= 0] the second of that
    reading, the expiry is [t0 + ttl_hours*3600]; so it is
    [created_at + ttl_hours*3600] exactly for the records whose
    [created_at] is the second [t0].  Without a positive TTL no expiry
    is attached. *)
Theorem upsert_chunks_expiry (env : Env) (cs : list Chunk)
    (source : string) (ttl_hours : Z) (w w' : World) (o : outcome unit) :
  upsert_chunks env cs source ttl_hours w = (o, w') ->
  exists recs,
    upserted (trace w') = (upserted (trace w) ++ recs)%list
    /\ ((ttl_hours <= 0)%Z ->
        Forall (fun r => md_expires_at (r_metadata r) = None) recs)
    /\ ((0 < ttl_hours)%Z ->
        (exists e,
            Forall (fun r => md_expires_at (r_metadata r) = e) recs)
        /\ (utc_offset env = 0%Z ->
            (0 <= clock_us env (ticks w))%Z ->
            let t0 := Z.quot (clock_us env (ticks w)) MICRO in
            Forall
              (fun r =>
                 md_expires_at (r_metadata r)
                 = Some (t0 + ttl_hours * 3600)%Z
                 /\ (md_expires_at (r_metadata r)
                     = option_map (fun created =>
                                     (created + ttl_hours * 3600)%Z)
                         (md_created_at (r_metadata r))
                     <-> md_created_at (r_metadata r) = Some t0))
              recs)).
Proof.
  intros Hrun. apply upsert_chunks_batch_expiry in Hrun as (recs & Hu & Hf).
  exists recs. split; [exact Hu|]. unfold batch_expiry in Hf. split.
  - intros Httl.
    assert (Hno : (ttl_hours >? 0)%Z = false)
      by (rewrite Z.gtb_ltb; apply Z.ltb_ge; exact Httl).
    rewrite Hno in Hf. exact Hf.
  - intros Httl.
    assert (Hyes : (ttl_hours >? 0)%Z = true)
      by (rewrite Z.gtb_ltb; apply Z.ltb_lt; exact Httl).
    rewrite Hyes in Hf. split; [eexists; exact Hf|].
    intros Hutc Hclock t0. rewrite Hutc in Hf.
    replace (clock_us env (ticks w) + ttl_hours * 3600 * MICRO
             - 0 * MICRO)%Z
      with (clock_us env (ticks w) + ttl_hours * 3600 * MICRO)%Z in Hf
      by lia.
    rewrite quot_add_seconds in Hf by lia. fold t0 in Hf.
    assert (Ht0 : (0 <= t0)%Z)
      by (apply Z.quot_pos; [exact Hclock|unfold MICRO; lia]).
    assert (Hatt : attached_expiry (Some (t0 + ttl_hours * 3600)%Z)
                   = Some (t0 + ttl_hours * 3600)%Z).
    { unfold attached_expiry.
      destruct (Z.eqb_spec (t0 + ttl_hours * 3600) 0); [lia|reflexivity]. }
    rewrite Hatt in Hf. eapply Forall_impl; [|exact Hf]. cbv beta.
    intros r Hr. split; [exact Hr|]. rewrite Hr.
    destruct (md_created_at (r_metadata r)) as [created|];
      cbn [option_map]; split; intros H;
      try discriminate H; injection H as H; f_equal; lia.
Qed.

Lemma upsert_chunks_expiry_witness :
  let cs := [mkChunk "a" "good"; mkChunk "b" "bad"; mkChunk "c" "later"] in
  let failing := upsert_chunks (picky_env ticking_clock) cs "s" 1 empty_world in
  let still :=
    upsert_chunks (example_env true still_clock) [mkChunk "a" "good"] "s" 1
      empty_world in
  (fst failing = Raise (ServiceError "embedding unavailable")
   /\ exists recs,
       upserted (trace (snd failing))
       = (upserted (trace empty_world) ++ recs)%list
       /\ List.length recs = 1
       /\ Forall
            (fun r =>
               md_expires_at (r_metadata r) = Some (1000 + 1 * 3600)%Z
               /\ (md_expires_at (r_metadata r)
                   = option_map (fun created => (created + 1 * 3600)%Z)
                       (md_created_at (r_metadata r))
                   <-> md_created_at (r_metadata r) = Some 1000%Z))
            recs)
  /\ (exists recs,
         upserted (trace (snd still))
         = (upserted (trace empty_world) ++ recs)%list
         /\ List.length recs = 1
         /\ Forall
              (fun r =>
                 md_created_at (r_metadata r) = Some 1000%Z
                 /\ md_expires_at (r_metadata r)
                    = option_map (fun created => (created + 1 * 3600)%Z)
                        (md_created_at (r_metadata r)))
              recs).
Proof.
  cbv zeta. split; [split; [vm_compute; reflexivity|]|].
  - destruct (upsert_chunks_expiry (picky_env ticking_clock)
                [mkChunk "a" "good"; mkChunk "b" "bad"; mkChunk "c" "later"]
                "s" 1 empty_world
                (snd (upsert_chunks (picky_env ticking_clock)
                        [mkChunk "a" "good"; mkChunk "b" "bad";
                         mkChunk "c" "later"] "s" 1 empty_world))
                (fst (upsert_chunks (picky_env ticking_clock)
                        [mkChunk "a" "good"; mkChunk "b" "bad";
                         mkChunk "c" "later"] "s" 1 empty_world)))
      as (recs & Hu & _ & Hpos).
    + vm_compute. reflexivity.
    + exists recs. split; [exact Hu|]. split.
      * change (upserted (trace empty_world)) with (@nil IndexedRecord) in Hu.
        cbn [app] in Hu. rewrite <- Hu. vm_compute. reflexivity.
      * destruct (Hpos ltac:(lia)) as [_ Hutc].
        apply Hutc; [reflexivity|vm_compute; discriminate].
  - destruct (upsert_chunks_expiry (example_env true still_clock)
                [mkChunk "a" "good"] "s" 1 empty_world
                (snd (upsert_chunks (example_env true still_clock)
                        [mkChunk "a" "good"] "s" 1 empty_world))
                (fst (upsert_chunks (example_env true still_clock)
                        [mkChunk "a" "good"] "s" 1 empty_world)))
      as (recs & Hu & _ & Hpos).
    + vm_compute. reflexivity.
    + exists recs. split; [exact Hu|].
      destruct (Hpos ltac:(lia)) as [_ Hutc].
      specialize (Hutc eq_refl ltac:(vm_compute; discriminate)).
      cbv zeta in Hutc.
      change (upserted (trace empty_world)) with (@nil IndexedRecord) in Hu.
      cbn [app] in Hu. rewrite <- Hu in *.
      split; [vm_compute; reflexivity|].
      apply Forall_forall. intros r Hin.
      destruct (proj1 (Forall_forall _ _) Hutc r Hin) as [_ Hiff].
      vm_compute in Hin. destruct Hin as [<-|[]].
      split; [reflexivity|]. apply Hiff. reflexivity.
Defined.

(** ** Retrieval *)

(** C2.  The two ways of enforcing the TTL differ.  With the native
    filter the index drops the expired records before it takes the
    [top_k] nearest, and drops the records without [expires_at] too;
    the manual filter runs after the index has taken the [top_k]
    nearest, and keeps the records without [expires_at].  First index:
    the nearest record is expired and [top_k] is 1.  Second index: one
    record without [expires_at]. *)
Theorem retrieve_paths_differ :
  let ids (run : outcome (list Match) * World) :=
    fmap_outcome (map m_id) (fst run) in
  let native := example_env true still_clock in
  let manual := example_env false still_clock in
  let w1 :=
    mkWorld 0 [example_record "old" (9 # 10) "expired" (Some 10%Z);
               example_record "new" (8 # 10) "fresh" (Some 5000%Z)] [] in
  let w2 := mkWorld 0 [example_record "plain" (9 # 10) "text" None] [] in
  ids (retrieve native "q" 1 w1) = Ret ["new"]
  /\ ids (retrieve manual "q" 1 w1) = Ret []
  /\ ids (retrieve native "q" TOP_K w2) = Ret []
  /\ ids (retrieve manual "q" TOP_K w2) = Ret ["plain"].
Proof. vm_compute. repeat split. Qed.

(** ** The relevance gate of [answer] *)

Lemma ask_llm_run (env : Env) (question context style lang : string)
    (w : World) :
  ask_llm env question context style lang w
  = (fmap_outcome
       (fun r => (Py.strip (resp_content r),
                  resp_prompt_tokens r, resp_completion_tokens r))
       (chat_oracle env (ask_request question context style lang)),
     mkWorld (ticks w) (store w)
       (trace w ++ [EvChat (ask_request question context style lang)])).
Proof.
  cbv [ask_llm bind chat_completion log lift_outcome ret].
  destruct (chat_oracle env _); reflexivity.
Qed.

(** What [answer] does once retrieval has returned, for the context
    that it passes on. *)
Lemma answer_after_ask (env : Env) (question context style lang : string)
    (w : World) :
  (' (ans, _, _) <- ask_llm env question context style lang ;; ret ans) w
  = (reply_of (chat_oracle env (ask_request question context style lang)),
     mkWorld (ticks w) (store w)
       (trace w ++ [EvChat (ask_request question context style lang)])).
Proof.
  unfold bind at 1. rewrite ask_llm_run. unfold reply_of.
  destruct (chat_oracle env _); reflexivity.
Qed.

(** The user message has a context section exactly for a context that
    is not empty. *)
Lemma user_prompt_context_section (question context : string) :
  has_context_section question (user_prompt question context)
  <-> context <> "".
Proof.
  unfold has_context_section, user_prompt. split.
  - intros (ctx & Hne & Heq) ->. simpl in Heq.
    injection Heq as Heq. apply (f_equal String.length) in Heq.
    rewrite !length_append in Heq. simpl in Heq. lia.
  - intros Hne. exists context. split; [exact Hne|].
    destruct context; [contradiction|reflexivity].
Qed.

Section GateFacts.

(** The test of the gate decides [reaches_min_score]. *)
Lemma gate_test_reaches (m : Match) :
  Qle_bool MIN_SCORE (score_key m) = true <-> reaches_min_score m.
Proof. apply Qle_bool_iff. Qed.

Lemma below_not_reaches (m : Match) :
  below_min_score m <-> ~ reaches_min_score m.
Proof.
  unfold below_min_score, reaches_min_score. split.
  - apply Qlt_not_le.
  - apply Qnot_le_lt.
Qed.

(** The list comprehension of [answer] keeps exactly the matches that
    reach [MIN_SCORE], in their order. *)
Lemma strong_matches_selection (ms : list Match) :
  selection reaches_min_score ms (strong_matches ms).
Proof.
  induction ms as [|m ms IH]; [constructor|].
  unfold strong_matches. cbn [filter]. fold (strong_matches ms).
  destruct (Qle_bool MIN_SCORE (score_key m)) eqn:E.
  - apply selection_keep; [apply gate_test_reaches; exact E|exact IH].
  - apply selection_drop; [|exact IH].
    intros H. apply gate_test_reaches in H. congruence.
Qed.

(** It keeps nothing exactly when every match is below [MIN_SCORE]. *)
Lemma strong_matches_nil (ms : list Match) :
  strong_matches ms = [] <-> Forall below_min_score ms.
Proof.
  induction ms as [|m ms IH]; [split; [constructor|reflexivity]|].
  unfold strong_matches. cbn [filter]. fold (strong_matches ms).
  destruct (Qle_bool MIN_SCORE (score_key m)) eqn:E; split.
  - intros H. discriminate H.
  - intros H. inversion H as [|m' ms' Hm _]. subst.
    apply below_not_reaches in Hm. exfalso. apply Hm.
    apply gate_test_reaches. exact E.
  - intros H. constructor; [|apply IH; exact H].
    apply below_not_reaches. intros Hm.
    apply gate_test_reaches in Hm. congruence.
  - intros H. inversion H. subst. apply IH. assumption.
Qed.

(** A selection is determined by the list and the property. *)
Lemma selection_unique {X : Type} (P : X -> Prop) (l s1 s2 : list X) :
  selection P l s1 -> selection P l s2 -> s1 = s2.
Proof.
  intros H1. revert s2.
  induction H1 as [|x l s Hx _ IH|x l s Hx _ IH]; intros s2 H2;
    inversion H2; subst; try contradiction.
  - reflexivity.
  - f_equal. apply IH. assumption.
  - apply IH. assumption.
Qed.

End GateFacts.

(** C9, as stated: when some match reaches [MIN_SCORE] the answer is
    grounded, generated with the retrieved context in the prompt.  It
    fails when the first strong match alone exceeds the budget of
    [build_context]: the context is then empty and the prompt is the
    one of the fallback, without a context section. *)
Lemma answer_ungrounded_despite_strong_match :
  let env := example_env true still_clock in
  let w :=
    mkWorld 0
      [example_record "big" (9 # 10) (Py.replicate 7000 "x")
         (Some 5000%Z)] [] in
  exists ms w1,
    retrieve env "q" TOP_K w = (Ret ms, w1)
    /\ strong_matches ms <> []
    /\ Exists reaches_min_score ms
    /\ chats (trace (snd (answer env "q" "concise" "en" w)))
       = [ask_request "q" "" "concise" "en"]
    /\ ~ has_context_section "q"
           (cr_user (ask_request "q" "" "concise" "en")).
Proof.
  cbv zeta. eexists. eexists. split; [vm_compute; reflexivity|].
  split; [vm_compute; discriminate|].
  split; [apply Exists_cons_hd; vm_compute; discriminate|].
  split; [vm_compute; reflexivity|].
  intros H. apply (user_prompt_context_section "q" "") in H.
  apply H. reflexivity.
Qed.

(** C9, amended: once retrieval has returned, [answer] sends one
    completion request and returns the text of the reply, stripped.
    When every match has a score below [MIN_SCORE] the request is made
    with the empty context and its prompt is the question alone.
    Otherwise the context is [build_context] of exactly the matches
    whose score is at least [MIN_SCORE], in the order of retrieval, and
    the prompt has a context section exactly when that context is not
    empty. *)
Theorem answer_relevance_gate (env : Env) (question style lang : string)
    (w w1 : World) (ms : list Match) :
  retrieve env question TOP_K w = (Ret ms, w1) ->
  let sent ctx :=
    (reply_of (chat_oracle env (ask_request question ctx style lang)),
     mkWorld (ticks w1) (store w1)
       (trace w1 ++ [EvChat (ask_request question ctx style lang)])) in
  (Forall below_min_score ms ->
   answer env question style lang w = sent ""
   /\ cr_user (ask_request question "" style lang)
      = "Question:" ++ nl ++ question)
  /\ (~ Forall below_min_score ms ->
      exists strong,
        selection reaches_min_score ms strong
        /\ answer env question style lang w = sent (build_context strong)
        /\ (has_context_section question
              (cr_user (ask_request question (build_context strong)
                          style lang))
            <-> build_context strong <> "")).
Proof.
  intros Hret sent.
  assert (Hans :
    answer env question style lang w
    = (if negb (nonempty (strong_matches ms))
       then ' (ans, _, _) <- ask_llm env question "" style lang ;; ret ans
       else ' (ans, _, _) <- ask_llm env question
                               (build_context (strong_matches ms))
                               style lang ;;
            ret ans) w1).
  { unfold answer. unfold bind at 1. rewrite Hret. reflexivity. }
  rewrite Hans. split.
  - intros Hnone. apply strong_matches_nil in Hnone. rewrite Hnone.
    cbn [nonempty negb]. split; [apply answer_after_ask|reflexivity].
  - intros Hsome. exists (strong_matches ms).
    split; [apply strong_matches_selection|].
    split; [|apply user_prompt_context_section].
    destruct (strong_matches ms) as [|m strong] eqn:E.
    + exfalso. apply Hsome. apply strong_matches_nil. exact E.
    + cbn [nonempty negb]. apply answer_after_ask.
Qed.

Lemma answer_relevance_gate_witness :
  let env := example_env true still_clock in
  let strong_record :=
    example_record "r" (9 # 10) "Recursion is self-reference."
      (Some 5000%Z) in
  let weak_record := example_record "u" (1 # 10) "Unrelated." (Some 5000%Z) in
  let mixed := mkWorld 0 [weak_record; strong_record] [] in
  let weak := mkWorld 0 [weak_record] [] in
  (exists ms w1 strong,
      retrieve env "q" TOP_K mixed = (Ret ms, w1)
      /\ map m_id ms = ["r"; "u"]
      /\ selection reaches_min_score ms strong
      /\ map m_id strong = ["r"]
      /\ answer env "q" "concise" "en" mixed
         = (reply_of
              (chat_oracle env
                 (ask_request "q" (build_context strong) "concise" "en")),
            mkWorld (ticks w1) (store w1)
              (trace w1
               ++ [EvChat (ask_request "q" (build_context strong)
                             "concise" "en")])))
  /\ (exists ms w1,
         retrieve env "q" TOP_K weak = (Ret ms, w1)
         /\ map m_id ms = ["u"]
         /\ answer env "q" "concise" "en" weak
            = (reply_of
                 (chat_oracle env (ask_request "q" "" "concise" "en")),
               mkWorld (ticks w1) (store w1)
                 (trace w1
                  ++ [EvChat (ask_request "q" "" "concise" "en")]))).
Proof.
  cbv zeta. split.
  - assert (Hret :
      retrieve (example_env true still_clock) "q" TOP_K
        (mkWorld 0
           [example_record "u" (1 # 10) "Unrelated." (Some 5000%Z);
            example_record "r" (9 # 10) "Recursion is self-reference."
              (Some 5000%Z)] [])
      = (Ret [mkMatch "r" (Some (1 * (9 # 10) + 0)%Q)
                (Some (mkMetadata (Some "r")
                         (Some "Recursion is self-reference.")
                         (Some "example") (Some 0%Z) (Some 5000%Z)));
              mkMatch "u" (Some (1 * (1 # 10) + 0)%Q)
                (Some (mkMetadata (Some "u") (Some "Unrelated.")
                         (Some "example") (Some 0%Z) (Some 5000%Z)))],
         mkWorld 1
           [example_record "u" (1 # 10) "Unrelated." (Some 5000%Z);
            example_record "r" (9 # 10) "Recursion is self-reference."
              (Some 5000%Z)]
           [EvEmbed "q"; EvQuery [1%Q] TOP_K (Some 1000%Z)]))
      by (vm_compute; reflexivity).
    destruct (proj2 (answer_relevance_gate (example_env true still_clock)
                       "q" "concise" "en" _ _ _ Hret))
      as (strong & Hsel & Hans & _).
    + intros Hall. inversion Hall as [|m l Hm _]. subst.
      vm_compute in Hm. discriminate Hm.
    + do 3 eexists. split; [exact Hret|]. split; [reflexivity|].
      split; [exact Hsel|]. split; [|exact Hans].
      match type of Hsel with
      | selection _ [?a; ?b] _ =>
          assert (Hone : selection reaches_min_score [a; b] [a])
      end.
      { apply selection_keep; [vm_compute; discriminate|].
        apply selection_drop; [|constructor].
        intros H. vm_compute in H. apply H. reflexivity. }
      rewrite (selection_unique _ _ _ _ Hsel Hone). reflexivity.
  - assert (Hret :
      retrieve (example_env true still_clock) "q" TOP_K
        (mkWorld 0
           [example_record "u" (1 # 10) "Unrelated." (Some 5000%Z)] [])
      = (Ret [mkMatch "u" (Some (1 * (1 # 10) + 0)%Q)
                (Some (mkMetadata (Some "u") (Some "Unrelated.")
                         (Some "example") (Some 0%Z) (Some 5000%Z)))],
         mkWorld 1
           [example_record "u" (1 # 10) "Unrelated." (Some 5000%Z)]
           [EvEmbed "q"; EvQuery [1%Q] TOP_K (Some 1000%Z)]))
      by (vm_compute; reflexivity).
    do 2 eexists. split; [exact Hret|]. split; [reflexivity|].
    apply (proj1 (answer_relevance_gate (example_env true still_clock)
                    "q" "concise" "en" _ _ _ Hret)).
    constructor; [vm_compute; reflexivity|constructor].
Defined.

(** * Further properties of the code *)

(** ** The chunker keeps every paragraph *)

Section JoinAppFacts.

Lemma join_app (sep : string) (a b : list string) :
  Py.join sep (a ++ b)%list
  = match a, b with
    | [], _ => Py.join sep b
    | _, [] => Py.join sep a
    | _, _ => Py.join sep a ++ sep ++ Py.join sep b
    end.
Proof.
  induction a as [|x a IH].
  - reflexivity.
  - destruct b as [|y b]; [rewrite app_nil_r; reflexivity|].
    destruct a as [|x' a].
    + reflexivity.
    + change ((x :: x' :: a) ++ y :: b)%list
        with (x :: ((x' :: a) ++ y :: b))%list.
      rewrite join_cons by (simpl; discriminate). rewrite IH.
      rewrite (join_cons sep x (x' :: a)) by discriminate.
      rewrite !append_assoc. reflexivity.
Qed.

(** A group of strings may be joined before the whole is. *)
Lemma join_group (sep : string) (a g b : list string) :
  g <> [] ->
  Py.join sep (a ++ [Py.join sep g] ++ b)%list
  = Py.join sep (a ++ g ++ b)%list.
Proof.
  intros Hg. rewrite (join_app sep a), (join_app sep a).
  rewrite (join_app sep [Py.join sep g] b), (join_app sep g b).
  destruct g as [|x g]; [contradiction|].
  destruct a, b; reflexivity.
Qed.

End JoinAppFacts.

Lemma flush_contents (st : chunker) (rest : list string) :
  Py.join (nl ++ nl) (map content (flush st) ++ rest)%list
  = Py.join (nl ++ nl)
      (map content (chunks st) ++ current_content st ++ rest)%list.
Proof.
  unfold flush. destruct (current_content st) as [|p ps] eqn:Hc.
  - reflexivity.
  - cbn [nonempty]. rewrite map_app. cbn [map content].
    rewrite <- app_assoc.
    apply (join_group (nl ++ nl) (map content (chunks st)) (p :: ps) rest).
    discriminate.
Qed.

Lemma chunk_loop_contents (ps : list string) :
  forall st : chunker,
    Py.join (nl ++ nl) (map content (flush (fold_left chunk_step ps st)))
    = Py.join (nl ++ nl)
        (map content (chunks st) ++ current_content st ++ ps)%list.
Proof.
  induction ps as [|p ps IH]; intros st.
  - cbn [fold_left].
    rewrite <- (app_nil_r (map content (flush st))).
    apply flush_contents.
  - cbn [fold_left]. rewrite IH. unfold chunk_step.
    destruct (is_heading p); cbn [chunks current_content].
    + apply (flush_contents st ([p] ++ ps)).
    + rewrite <- app_assoc. reflexivity.
Qed.

(** X1.  The chunker loses nothing: the contents of the chunks, joined
    by blank lines, are the paragraphs of the text joined by blank
    lines, in order. *)
Theorem chunk_by_topic_lossless (text : string) :
  Py.join (nl ++ nl) (map content (chunk_by_topic text))
  = Py.join (nl ++ nl) (paragraphs text).
Proof.
  unfold chunk_by_topic, chunk_paragraphs. apply chunk_loop_contents.
Qed.

(** ** The chunks are well formed, and none is dropped at upsert *)

Section StripFacts.

Lemma lstrip_starts (s : string) :
  Py.lstrip s = "" \/ starts_nonspace (Py.lstrip s) = true.
Proof.
  induction s as [|c s IH]; simpl.
  - left. reflexivity.
  - destruct (Py.isspace c) eqn:Hc; [exact IH|].
    right. simpl. rewrite Hc. reflexivity.
Qed.

Lemma rstrip_starts (s : string) :
  starts_nonspace s = true -> starts_nonspace (Py.rstrip s) = true.
Proof.
  destruct s as [|c s]; simpl; [discriminate|]. intros Hc.
  destruct (Py.rstrip s).
  - destruct (Py.isspace c) eqn:E; [discriminate Hc|]. simpl.
    rewrite E. reflexivity.
  - exact Hc.
Qed.

(** A stripped string is empty or starts with a character that is not
    whitespace. *)
Lemma strip_starts (s : string) :
  Py.truthy (Py.strip s) = true -> starts_nonspace (Py.strip s) = true.
Proof.
  unfold Py.strip. destruct (lstrip_starts s) as [H|H].
  - rewrite H. discriminate.
  - intros _. apply rstrip_starts. exact H.
Qed.

Lemma strip_of_starts (s : string) :
  starts_nonspace s = true -> Py.truthy (Py.strip s) = true.
Proof.
  intros H. pose proof (rstrip_starts s H) as Hr.
  unfold Py.strip. destruct s as [|c s]; [discriminate|].
  simpl in H. simpl Py.lstrip.
  destruct (Py.isspace c); [discriminate|].
  destruct (Py.rstrip (String c s)); [discriminate|reflexivity].
Qed.

Lemma take_starts (n : nat) (s : string) :
  0 < n -> starts_nonspace s = true ->
  starts_nonspace (Py.take n s) = true.
Proof.
  intros Hn. destruct n; [lia|]. destruct s; [discriminate|].
  simpl. auto.
Qed.

Lemma join_starts (sep x : string) (l : list string) :
  starts_nonspace x = true ->
  starts_nonspace (Py.join sep (x :: l)) = true.
Proof.
  intros H. destruct x as [|c x]; [discriminate|].
  destruct l; simpl; exact H.
Qed.

End StripFacts.

Lemma paragraphs_start_nonspace (text : string) :
  Forall (fun p => starts_nonspace p = true) (paragraphs text).
Proof.
  unfold paragraphs. apply Forall_forall. intros p Hp.
  apply in_map_iff in Hp as (q & <- & Hq).
  apply filter_In in Hq as [_ Hq]. apply strip_starts. exact Hq.
Qed.

Lemma heading_title_nonempty (para : string) : heading_title para <> "".
Proof.
  unfold heading_title.
  destruct (Py.strip _) eqn:E; simpl; discriminate.
Qed.

Lemma flush_well_formed (st : chunker) :
  good_chunker st -> Forall well_formed (flush st).
Proof.
  intros (Hc & Ht & Hp). unfold flush.
  destruct (current_content st) as [|p ps]; [exact Hc|].
  cbn [nonempty]. apply Forall_app. split; [exact Hc|].
  constructor; [|constructor]. split; [exact Ht|].
  cbn [content]. apply join_starts. inversion Hp. assumption.
Qed.

Lemma chunk_loop_well_formed (ps : list string) :
  Forall (fun p => starts_nonspace p = true) ps ->
  forall st, good_chunker st ->
             Forall well_formed (flush (fold_left chunk_step ps st)).
Proof.
  induction 1 as [|p ps Hp _ IH]; intros st Hst.
  - apply flush_well_formed. exact Hst.
  - cbn [fold_left]. apply IH. unfold chunk_step.
    destruct (is_heading p).
    + split; [apply flush_well_formed; exact Hst|].
      split; [apply heading_title_nonempty|].
      constructor; [exact Hp|constructor].
    + destruct Hst as (Hc & Ht & Hq). split; [exact Hc|].
      split; [exact Ht|]. apply Forall_app. split; [exact Hq|].
      constructor; [exact Hp|constructor].
Qed.

Lemma chunks_well_formed (text : string) :
  Forall well_formed (chunk_by_topic text).
Proof.
  unfold chunk_by_topic, chunk_paragraphs.
  apply chunk_loop_well_formed.
  - apply paragraphs_start_nonspace.
  - repeat split; [constructor|discriminate|constructor].
Qed.

(** X2.  Every chunk that [chunk_by_topic] returns has a non-empty
    title and a content that starts with a character that is not
    whitespace; in particular no chunk is empty or blank. *)
Theorem chunk_by_topic_well_formed (text : string) :
  Forall (fun c => title c <> ""
                   /\ starts_nonspace (content c) = true
                   /\ nonblank c = true)
    (chunk_by_topic text).
Proof.
  eapply Forall_impl; [|exact (chunks_well_formed text)]. intros c [Ht Hc].
  repeat split; [exact Ht|exact Hc|].
  unfold nonblank. apply strip_of_starts. exact Hc.
Qed.

Lemma kept_of_starts (c : Chunk) :
  starts_nonspace (content c) = true -> kept c = true.
Proof.
  intros H. unfold kept, stored_text. apply strip_of_starts.
  apply take_starts; [|exact H].
  apply Nat.ltb_lt. vm_compute. reflexivity.
Qed.

Lemma filter_all {A : Type} (p : A -> bool) (l : list A) :
  Forall (fun x => p x = true) l -> filter p l = l.
Proof.
  induction 1 as [|x l Hx _ IH]; simpl; [reflexivity|].
  rewrite Hx, IH. reflexivity.
Qed.

(** X3.  Chunking then upserting: no chunk of [chunk_by_topic] fails
    the guard of [upsert_chunks], so a run that does not raise embeds
    every chunk and hands to the index exactly one record per chunk, in
    order, with the content cut to 10000 characters as its text. *)
Theorem upsert_chunked_text (env : Env) (text source : string)
    (ttl_hours : Z) (w w' : World) :
  upsert_chunks env (chunk_by_topic text) source ttl_hours w
  = (Ret tt, w') ->
  exists recs,
    upserted (trace w') = (upserted (trace w) ++ recs)%list
    /\ List.length recs = List.length (chunk_by_topic text)
    /\ map (fun r => md_text (r_metadata r)) recs
       = map (fun c => Some (stored_text c)) (chunk_by_topic text)
    /\ embedded (trace w')
       = (embedded (trace w)
          ++ map stored_text (chunk_by_topic text))%list.
Proof.
  intros Hrun. apply upsert_chunks_run in Hrun as (w0 & Hw0 & Hloop).
  apply upsert_loop_run in Hloop as (recs & Hu & He & Hf).
  rewrite Hw0 in Hu, He.
  assert (Hall : filter kept (chunk_by_topic text) = chunk_by_topic text).
  { apply filter_all.
    eapply Forall_impl; [|exact (chunks_well_formed text)].
    intros c [_ Hc]. apply kept_of_starts. exact Hc. }
  rewrite Hall in He, Hf. exists recs. split; [exact Hu|].
  split; [symmetry; eapply Forall2_length; exact Hf|].
  split; [|exact He].
  clear Hu He Hall. induction Hf as [|c r cs recs' [Ht _] _ IH]; simpl.
  - reflexivity.
  - rewrite Ht, IH. reflexivity.
Qed.

Lemma upsert_chunked_text_witness :
  let env := example_env true still_clock in
  let text := "# A" ++ nl ++ nl ++ "1. body" in
  let w' := snd (upsert_chunks env (chunk_by_topic text) "s" 1 empty_world) in
  exists recs,
    upserted (trace w') = (upserted (trace empty_world) ++ recs)%list
    /\ List.length recs = List.length (chunk_by_topic text)
    /\ map (fun r => md_text (r_metadata r)) recs
       = map (fun c => Some (stored_text c)) (chunk_by_topic text)
    /\ embedded (trace w')
       = (embedded (trace empty_world)
          ++ map stored_text (chunk_by_topic text))%list.
Proof.
  cbv zeta.
  apply (upsert_chunked_text (example_env true still_clock)
           ("# A" ++ nl ++ nl ++ "1. body") "s" 1 empty_world).
  vm_compute. reflexivity.
Defined.

(** ** The size and the emptiness of the context *)

Lemma pack_length (ms : list Match) :
  forall i size, List.length (pack i size ms) <= List.length ms.
Proof.
  induction ms as [|m ms IH]; intros i size.
  - simpl. lia.
  - rewrite pack_cons. cbn [List.length].
    destruct (negb (Py.truthy (match_text m))).
    + specialize (IH (S i) size). lia.
    + destruct (MAX_CONTEXT_CHARS <? _); cbn [List.length].
      * lia.
      * specialize (IH (S i) (size + String.length
                                       (format_chunk i m (match_text m)))).
        lia.
Qed.

Lemma insert_desc_length {X : Type} (key : X -> Q) (x : X) (l : list X) :
  List.length (insert_desc key x l) = S (List.length l).
Proof.
  induction l as [|y l IH]; simpl; [reflexivity|].
  destruct (Qle_bool (key y) (key x)); simpl; [reflexivity|].
  rewrite IH. reflexivity.
Qed.

Lemma sort_desc_length {X : Type} (key : X -> Q) (l : list X) :
  List.length (sort_desc key l) = List.length l.
Proof.
  induction l as [|x l IH]; simpl; [reflexivity|].
  rewrite insert_desc_length, IH. reflexivity.
Qed.

(** X4.  What the budget does bound: the context has at most
    [MAX_CONTEXT_CHARS] characters plus one separator for each match
    after the first. *)
Theorem build_context_bound_by_count (matches : list Match) :
  String.length (build_context matches)
  <= MAX_CONTEXT_CHARS + (List.length matches - 1).
Proof.
  pose proof (build_context_length_bound matches) as H.
  pose proof (pack_length (sort_desc score_key matches) 1 0) as Hp.
  rewrite sort_desc_length in Hp. lia.
Qed.

Lemma format_chunk_nonempty (i : nat) (m : Match) (t : string) :
  format_chunk i m t <> "".
Proof. unfold format_chunk. simpl. discriminate. Qed.

Lemma join_nonempty (sep x : string) (l : list string) :
  x <> "" -> Py.join sep (x :: l) <> "".
Proof.
  intros Hx. destruct x as [|c x]; [contradiction|].
  destruct l; simpl; discriminate.
Qed.

(** X5.  When the match ranked first has a text, the context is empty
    exactly when the formatted chunk of that match alone exceeds
    [MAX_CONTEXT_CHARS]: the loop stops at the first chunk that does not
    fit and never tries the smaller ones that follow. *)
Theorem build_context_empty_iff (matches rest : list Match) (top : Match) :
  sort_desc score_key matches = top :: rest ->
  match_text top <> "" ->
  (build_context matches = ""
   <-> MAX_CONTEXT_CHARS
       < String.length (format_chunk 1 top (match_text top))).
Proof.
  intros Hsort Htext. unfold build_context. rewrite Hsort, pack_cons.
  destruct (match_text top) as [|c t] eqn:Ht; [contradiction|].
  cbn [Py.truthy negb]. rewrite Nat.add_0_l.
  destruct (MAX_CONTEXT_CHARS <? _) eqn:Hb.
  - apply Nat.ltb_lt in Hb. split; [intros _; exact Hb|reflexivity].
  - apply Nat.ltb_ge in Hb. split.
    + intros H. exfalso. revert H. apply join_nonempty.
      apply format_chunk_nonempty.
    + lia.
Qed.

Lemma build_context_empty_iff_witness :
  build_context [match_of "b" (1 # 2) (Py.replicate 7000 "x");
                 match_of "a" (9 # 10) "short"] = ""
  <-> MAX_CONTEXT_CHARS
      < String.length
          (format_chunk 1 (match_of "a" (9 # 10) "short")
             (match_text (match_of "a" (9 # 10) "short"))).
Proof.
  apply (build_context_empty_iff
           [match_of "b" (1 # 2) (Py.replicate 7000 "x");
            match_of "a" (9 # 10) "short"]
           [match_of "b" (1 # 2) (Py.replicate 7000 "x")]).
  - vm_compute. reflexivity.
  - discriminate.
Defined.

(** ** What retrieval guarantees *)

(** [retrieve], unfolded: what it returns and the world it leaves. *)
Lemma retrieve_run (env : Env) (query : string) (top_k : nat) (w : World) :
  retrieve env query top_k w
  = match embed_oracle env query with
    | Raise e =>
        (Raise e, mkWorld (ticks w) (store w) (trace w ++ [EvEmbed query]))
    | Ret (qvec, _) =>
        let ts := retrieve_ts env w in
        let hits f :=
          firstn top_k
            (sort_desc score_key
               (map (hit env qvec) (filter (passes_filter f) (store w)))) in
        (Ret (filter (fun m => Py.truthy (match_text m))
                (if PINECONE_NEW env then hits (Some ts)
                 else filter (not_expired ts) (hits None))),
         mkWorld (S (ticks w)) (store w)
           (trace w
            ++ [EvEmbed query;
                EvQuery qvec top_k
                  (if PINECONE_NEW env then Some ts else None)]))
    end.
Proof.
  unfold retrieve.
  change (DEFAULT_TTL_HOURS >? 0)%Z with true. cbv iota.
  cbv [bind embed_text log lift_outcome int_time read_clock ret
         index_query retrieve_ts hit].
  cbn [ticks store trace].
  destruct (embed_oracle env query) as [[qvec n]|e]; [|reflexivity].
  destruct (PINECONE_NEW env); cbn [ticks store trace];
    rewrite <- !app_assoc; reflexivity.
Qed.

Lemma In_firstn {A : Type} (n : nat) (x : A) (l : list A) :
  In x (firstn n l) -> In x l.
Proof.
  revert l. induction n as [|n IH]; intros [|y l]; simpl; try tauto.
  intros [H|H]; [left; exact H|right; apply IH; exact H].
Qed.

(** X6.  A retrieval that returns gives at most [top_k] matches, each
    with a non-empty text and none with an [expires_at] at or before
    the second of the call; with the native filter each match does
    carry an [expires_at].  The index is left as it was. *)
Theorem retrieve_guarantees (env : Env) (query : string) (top_k : nat)
    (w w' : World) (ms : list Match) :
  retrieve env query top_k w = (Ret ms, w') ->
  List.length ms <= top_k
  /\ store w' = store w
  /\ Forall (fun m =>
               match_text m <> ""
               /\ (forall e, md_expires_at (metadata_or_empty m) = Some e ->
                             (retrieve_ts env w < e)%Z)
               /\ (PINECONE_NEW env = true ->
                   md_expires_at (metadata_or_empty m) <> None))
       ms.
Proof.
  rewrite retrieve_run.
  destruct (embed_oracle env query) as [[qvec n]|e]; [|discriminate].
  cbv zeta. intros [= <- <-]. split; [|split; [reflexivity|]].
  - eapply Nat.le_trans; [apply filter_length_le|].
    destruct (PINECONE_NEW env).
    + rewrite length_firstn. lia.
    + eapply Nat.le_trans; [apply filter_length_le|].
      rewrite length_firstn. lia.
  - apply Forall_forall. intros m Hm.
    apply filter_In in Hm as [Hm Htext].
    split; [intros E; rewrite E in Htext; discriminate|].
    destruct (PINECONE_NEW env).
    + apply In_firstn, sort_desc_In, in_map_iff in Hm as (r & <- & Hr).
      apply filter_In in Hr as [_ Hr]. unfold passes_filter in Hr.
      unfold metadata_or_empty, hit. cbn [m_metadata].
      destruct (md_expires_at (r_metadata r)) as [e'|]; [|discriminate].
      split; [|discriminate]. intros e [= <-].
      apply Z.gtb_lt in Hr. exact Hr.
    + apply filter_In in Hm as [_ Hne]. unfold not_expired in Hne.
      split; [|discriminate]. intros e He. rewrite He in Hne.
      apply Z.gtb_lt in Hne. exact Hne.
Qed.

Lemma retrieve_guarantees_witness :
  let env := example_env false still_clock in
  let w :=
    mkWorld 0 [example_record "old" (9 # 10) "expired" (Some 10%Z);
               example_record "new" (8 # 10) "fresh" (Some 5000%Z);
               example_record "plain" (7 # 10) "text" None] [] in
  let ms := match fst (retrieve env "q" 2 w) with
            | Ret ms => ms
            | Raise _ => []
            end in
  List.length ms <= 2
  /\ store (snd (retrieve env "q" 2 w)) = store w
  /\ Forall (fun m =>
               match_text m <> ""
               /\ (forall e, md_expires_at (metadata_or_empty m) = Some e ->
                             (retrieve_ts env w < e)%Z)
               /\ (PINECONE_NEW env = true ->
                   md_expires_at (metadata_or_empty m) <> None))
       ms.
Proof.
  cbv zeta.
  apply (retrieve_guarantees (example_env false still_clock) "q" 2
           (mkWorld 0 [example_record "old" (9 # 10) "expired" (Some 10%Z);
                       example_record "new" (8 # 10) "fresh" (Some 5000%Z);
                       example_record "plain" (7 # 10) "text" None] [])).
  vm_compute. reflexivity.
Defined.

(** ** Failures and side effects of [answer] *)

(** X7.  When the embedding of the question fails, [answer] raises that
    error at once: the index is not queried, the clock is not read and
    no completion is requested. *)
Theorem answer_embedding_failure (env : Env) (question style lang : string)
    (w : World) (e : exn) :
  embed_oracle env question = Raise e ->
  answer env question style lang w
  = (Raise e,
     mkWorld (ticks w) (store w) (trace w ++ [EvEmbed question])).
Proof.
  intros He. unfold answer. unfold bind at 1.
  rewrite retrieve_run, He. reflexivity.
Qed.

Lemma answer_embedding_failure_witness :
  answer (faulty_env false true) "q" "concise" "en" empty_world
  = (Raise (ServiceError "embedding unavailable"),
     mkWorld (ticks empty_world) (store empty_world)
       (trace empty_world ++ [EvEmbed "q"])).
Proof.
  apply (answer_embedding_failure (faulty_env false true)
           "q" "concise" "en" empty_world).
  reflexivity.
Defined.

Lemma chats_app (a b : list event) :
  chats (a ++ b) = (chats a ++ chats b)%list.
Proof. apply flat_map_app. Qed.

(** [answer], unfolded: the context it passes on and the request it
    sends once retrieval has returned. *)
Lemma answer_run (env : Env) (question style lang : string) (w : World) :
  answer env question style lang w
  = match retrieve env question TOP_K w with
    | (Raise e, w1) => (Raise e, w1)
    | (Ret ms, w1) =>
        let ctx := if nonempty (strong_matches ms)
                   then build_context (strong_matches ms) else "" in
        (reply_of (chat_oracle env (ask_request question ctx style lang)),
         mkWorld (ticks w1) (store w1)
           (trace w1 ++ [EvChat (ask_request question ctx style lang)]))
    end.
Proof.
  unfold answer. unfold bind at 1.
  destruct (retrieve env question TOP_K w) as [[ms|e] w1]; [|reflexivity].
  cbv zeta. destruct (strong_matches ms); cbn [nonempty negb];
    apply answer_after_ask.
Qed.

(** X8.  Answering reads the index and never writes to it: whatever the
    services do, [answer] leaves the content of the index as it was,
    hands no record to it, embeds the question and nothing else, and
    requests at most one completion. *)
Theorem answer_read_only (env : Env) (question style lang : string)
    (w : World) :
  let w' := snd (answer env question style lang w) in
  store w' = store w
  /\ upserted (trace w') = upserted (trace w)
  /\ embedded (trace w') = (embedded (trace w) ++ [question])%list
  /\ List.length (chats (trace w')) <= S (List.length (chats (trace w))).
Proof.
  cbv zeta. rewrite answer_run, retrieve_run.
  destruct (embed_oracle env question) as [[qvec n]|e];
    cbv zeta; cbn [snd store trace];
    rewrite ?upserted_app, ?embedded_app, ?chats_app, ?length_app;
    cbn [upserted embedded chats flat_map app List.length];
    rewrite ?app_nil_r; repeat split; lia.
Qed.

(** ** The styles of a completion request *)

(** X9.  A style that is neither "concise" nor "detailed", such as the
    "technical" and "beginner" of the user interface, gets the system
    prompt of the concise style with the temperature and the token
    limit of the detailed one. *)
Theorem ask_request_other_styles (question context style lang : string) :
  style <> "concise" -> style <> "detailed" ->
  cr_system (ask_request question context style lang)
  = cr_system (ask_request question context "concise" lang)
  /\ cr_temperature (ask_request question context style lang)
     = cr_temperature (ask_request question context "detailed" lang)
  /\ cr_max_tokens (ask_request question context style lang)
     = cr_max_tokens (ask_request question context "detailed" lang)
  /\ cr_user (ask_request question context style lang)
     = user_prompt question context.
Proof.
  intros Hc Hd. apply String.eqb_neq in Hc, Hd.
  unfold ask_request, system_prompt. cbn [cr_system cr_temperature
                                           cr_max_tokens cr_user].
  rewrite Hc, Hd. repeat split.
Qed.

Lemma ask_request_other_styles_witness :
  cr_system (ask_request "q" "" (style_map "Technical") (lang_code "Hindi"))
  = cr_system (ask_request "q" "" "concise" (lang_code "Hindi"))
  /\ cr_temperature
       (ask_request "q" "" (style_map "Technical") (lang_code "Hindi"))
     = cr_temperature (ask_request "q" "" "detailed" (lang_code "Hindi"))
  /\ cr_max_tokens
       (ask_request "q" "" (style_map "Technical") (lang_code "Hindi"))
     = cr_max_tokens (ask_request "q" "" "detailed" (lang_code "Hindi"))
  /\ cr_user (ask_request "q" "" (style_map "Technical") (lang_code "Hindi"))
     = user_prompt "q" "".
Proof.
  apply (ask_request_other_styles "q" "" (style_map "Technical")
           (lang_code "Hindi")); vm_compute; discriminate.
Defined.

(** ** Extraction without the optional libraries *)

(** X10.  A PDF file when [PyPDF2] is not installed, or a DOCX file
    when [docx2txt] is not, is treated like a file without handler: the
    result is the empty string, and nothing is read. *)
Theorem extract_missing_library (env : Env) (filepath : string) :
  (Py.lower (splitext_ext filepath) = ".pdf" /\ PyPDF2 env = None)
  \/ (Py.lower (splitext_ext filepath) = ".docx" /\ docx2txt env = None) ->
  extract_body env filepath
  = Raise (ValueError ("Unsupported file: "
                       ++ Py.lower (splitext_ext filepath)))
  /\ extract_text_from_file env filepath = Ret "".
Proof.
  intros H.
  assert (Hb : extract_body env filepath
               = Raise (ValueError ("Unsupported file: "
                                    ++ Py.lower (splitext_ext filepath)))).
  { unfold extract_body. destruct H as [[He Hl]|[He Hl]]; rewrite He, Hl.
    - reflexivity.
    - destruct (PyPDF2 env); reflexivity. }
  split; [exact Hb|]. unfold extract_text_from_file. rewrite Hb.
  reflexivity.
Qed.

Lemma extract_missing_library_witness :
  extract_body (example_env true still_clock) "docs/Paper.PDF"
  = Raise (ValueError
             ("Unsupported file: "
              ++ Py.lower (splitext_ext "docs/Paper.PDF")))
  /\ extract_text_from_file (example_env true still_clock) "docs/Paper.PDF"
     = Ret "".
Proof.
  apply (extract_missing_library (example_env true still_clock)
           "docs/Paper.PDF").
  left. split; reflexivity.
Defined.

(** ** The records of a batch, and a batch that fails *)

Lemma take_length_le (n : nat) :
  forall s, String.length (Py.take n s) <= n.
Proof.
  induction n as [|n IH]; intros [|c s]; simpl; try lia.
  specialize (IH s). lia.
Qed.

Lemma prefix_append (p s : string) : String.prefix p (p ++ s) = true.
Proof.
  induction p as [|c p IH]; simpl.
  - destruct s; reflexivity.
  - destruct (Ascii.ascii_dec c c) as [_|Hne]; [exact IH|].
    exfalso. apply Hne. reflexivity.
Qed.

Lemma upsert_one_shape (env : Env) (source : string) (expiry : option Z)
    (i : nat) (c : Chunk) (w w' : World) :
  upsert_one env source expiry (i, c) w = (Ret tt, w') ->
  if kept c
  then exists r,
      trace w' = (trace w ++ [EvEmbed (stored_text c); EvUpsert r])%list
      /\ record_invariant source r
  else w' = w.
Proof.
  unfold upsert_one. fold (stored_text c). fold (kept c).
  destruct (kept c) eqn:Hk; cbn [negb].
  - cbv [bind embed_text log lift_outcome int_time read_clock ret
           index_upsert].
    cbn [ticks store trace].
    destruct (embed_oracle env _) as [[vec n]|e];
      [|intros H; discriminate H].
    match goal with
    | |- context [upsert_oracle env ?r] =>
        destruct (upsert_oracle env r);
          intros H; [discriminate H|]; exists r
    end.
    injection H as <-. cbn [trace]. rewrite <- app_assoc.
    split; [reflexivity|].
    unfold record_invariant. cbn [r_metadata r_id md_title md_text
                                    md_source md_created_at].
    do 3 eexists. repeat split.
    + apply take_length_le.
    + apply take_length_le.
    + exact Hk.
    + rewrite <- (append_assoc source "_"). apply prefix_append.
  - unfold ret. intros [= <-]. reflexivity.
Qed.

Lemma upsert_loop_shape (env : Env) (source : string) (expiry : option Z)
    (cs : list Chunk) :
  forall (i : nat) (w w' : World),
    for_each (enumerate_from i cs) (upsert_one env source expiry) w
    = (Ret tt, w') ->
    exists recs,
      upserted (trace w') = (upserted (trace w) ++ recs)%list
      /\ Forall (record_invariant source) recs.
Proof.
  induction cs as [|c cs IH]; intros i w w' Hrun.
  - injection Hrun as <-. exists []. rewrite app_nil_r. split; constructor.
  - cbn [enumerate_from for_each] in Hrun. unfold bind in Hrun at 1.
    destruct (upsert_one env source expiry (i, c) w) as [[[]|e] w1] eqn:H1;
      [|discriminate Hrun].
    apply upsert_one_shape in H1. apply IH in Hrun as (recs & Hu & Hf).
    destruct (kept c).
    + destruct H1 as (r & Ht & Hr). exists (r :: recs).
      rewrite Hu, Ht, upserted_app. simpl. rewrite <- app_assoc.
      split; [reflexivity|]. constructor; assumption.
    + subst w1. exists recs. auto.
Qed.

(** X11.  Every record that a batch hands to the index has a title of
    at most 200 characters, a text of at most 10000 characters that is
    not blank, the source of the batch, a creation time, and an id that
    starts with the source and an underscore. *)
Theorem upsert_record_invariants (env : Env) (cs : list Chunk)
    (source : string) (ttl_hours : Z) (w w' : World) :
  upsert_chunks env cs source ttl_hours w = (Ret tt, w') ->
  exists recs,
    upserted (trace w') = (upserted (trace w) ++ recs)%list
    /\ Forall (record_invariant source) recs.
Proof.
  intros Hrun. apply upsert_chunks_run in Hrun as (w0 & Hw0 & Hloop).
  apply upsert_loop_shape in Hloop. rewrite Hw0 in Hloop. exact Hloop.
Qed.

Lemma upsert_record_invariants_witness :
  let env := example_env true ticking_clock in
  let cs := [mkChunk "Intro" "hello"; mkChunk "" "  "] in
  let w' := snd (upsert_chunks env cs "file_a.txt" 1 empty_world) in
  exists recs,
    upserted (trace w') = (upserted (trace empty_world) ++ recs)%list
    /\ Forall (record_invariant "file_a.txt") recs.
Proof.
  cbv zeta.
  apply (upsert_record_invariants (example_env true ticking_clock)
           [mkChunk "Intro" "hello"; mkChunk "" "  "] "file_a.txt" 1
           empty_world).
  vm_compute. reflexivity.
Defined.

Section BatchFacts.

Lemma enumerate_from_app {X : Type} (l1 l2 : list X) :
  forall i,
    enumerate_from i (l1 ++ l2)
    = (enumerate_from i l1
       ++ enumerate_from (i + List.length l1) l2)%list.
Proof.
  induction l1 as [|x l1 IH]; intros i; simpl.
  - rewrite Nat.add_0_r. reflexivity.
  - rewrite IH. rewrite Nat.add_succ_r. reflexivity.
Qed.

Lemma for_each_app {X : Type} (body : X -> M unit) (l1 l2 : list X) :
  forall w,
    for_each (l1 ++ l2) body w
    = match for_each l1 body w with
      | (Ret _, w1) => for_each l2 body w1
      | (Raise e, w1) => (Raise e, w1)
      end.
Proof.
  induction l1 as [|x l1 IH]; intros w.
  - reflexivity.
  - cbn [app for_each]. unfold bind at 1 2.
    destruct (body x w) as [[[]|e] w1]; [apply IH|reflexivity].
Qed.

Lemma upsert_chunks_unfold (env : Env) (cs : list Chunk) (source : string)
    (ttl_hours : Z) (w : World) :
  upsert_chunks env cs source ttl_hours w
  = for_each (enumerate_from 0 cs)
      (upsert_one env source (batch_expiry env ttl_hours w))
      (batch_start ttl_hours w).
Proof.
  unfold upsert_chunks, batch_expiry, batch_start.
  destruct (ttl_hours >? 0)%Z; reflexivity.
Qed.

End BatchFacts.

(** X12.  No rollback: when the embedding of a chunk fails, the batch
    stops with that error; what was written for the chunks before it
    stays in the index, and nothing is embedded or written for the
    chunks after it. *)
Theorem upsert_no_rollback (env : Env) (cs1 cs2 : list Chunk) (c : Chunk)
    (source : string) (ttl_hours : Z) (w w1 : World) (e : exn) :
  upsert_chunks env cs1 source ttl_hours w = (Ret tt, w1) ->
  kept c = true ->
  embed_oracle env (stored_text c) = Raise e ->
  upsert_chunks env (cs1 ++ c :: cs2) source ttl_hours w
  = (Raise e,
     mkWorld (ticks w1) (store w1)
       (trace w1 ++ [EvEmbed (stored_text c)])).
Proof.
  rewrite !upsert_chunks_unfold. intros H1 Hk He.
  rewrite enumerate_from_app, for_each_app, H1.
  cbn [enumerate_from for_each]. unfold bind at 1.
  unfold upsert_one at 1. fold (stored_text c). fold (kept c).
  rewrite Hk. cbn [negb].
  cbv [bind embed_text log lift_outcome]. rewrite He. reflexivity.
Qed.

Lemma upsert_no_rollback_witness :
  let env := picky_env still_clock in
  let before := [mkChunk "a" "good"] in
  let failing := mkChunk "b" "bad" in
  let after := [mkChunk "c" "later"] in
  let w1 := snd (upsert_chunks env before "s" 1 empty_world) in
  map r_id (store w1) = ["s_1000_0"]
  /\ embedded (trace w1) = ["good"]
  /\ upsert_chunks env (before ++ failing :: after) "s" 1 empty_world
     = (Raise (ServiceError "embedding unavailable"),
        mkWorld (ticks w1) (store w1)
          (trace w1 ++ [EvEmbed (stored_text failing)])).
Proof.
  cbv zeta. split; [vm_compute; reflexivity|].
  split; [vm_compute; reflexivity|].
  apply (upsert_no_rollback (picky_env still_clock)
           [mkChunk "a" "good"] [mkChunk "c" "later"] (mkChunk "b" "bad")
           "s" 1 empty_world
           (snd (upsert_chunks (picky_env still_clock)
                   [mkChunk "a" "good"] "s" 1 empty_world))).
  - vm_compute. reflexivity.
  - vm_compute. reflexivity.
  - reflexivity.
Defined.

(** ** A well-formed reply is returned as it is *)

Section SplitFacts.

Lemma rev_string_twice (q : string) :
  forall a b, Py.rev_string a (Py.rev_string b q) = Py.rev_string (q ++ a) b.
Proof.
  induction q as [|c q IH]; intros a b; simpl.
  - reflexivity.
  - rewrite IH. reflexivity.
Qed.

Lemma rev_string_involutive (q : string) :
  Py.rev_string "" (Py.rev_string "" q) = q.
Proof. rewrite rev_string_twice. simpl. apply append_empty_r. Qed.

Lemma prefix_nl_other (c : ascii) (s : string) :
  not_char LF c = true -> String.prefix nl (String c s) = false.
Proof.
  unfold not_char, nl. cbn [String.prefix]. intros H.
  destruct (Ascii.ascii_dec LF c) as [<-|_]; [|reflexivity].
  rewrite Ascii.eqb_refl in H. discriminate.
Qed.

(** Splitting at newlines reads a piece without newline in one go. *)
Lemma split_from_piece (q : string) :
  forall s cur,
    Py.all_chars (not_char LF) q = true ->
    Py.split_from nl (q ++ s) 0 cur
    = Py.split_from nl s 0 (Py.rev_string cur q).
Proof.
  induction q as [|c q IH]; intros s cur Hq.
  - reflexivity.
  - simpl in Hq. apply andb_true_iff in Hq as [Hc Hq].
    change (String c q ++ s) with (String c (q ++ s)).
    cbn [Py.split_from]. rewrite (prefix_nl_other c _ Hc).
    rewrite IH by exact Hq. reflexivity.
Qed.

Lemma split_from_newline (s cur : string) :
  Py.split_from nl (String LF s) 0 cur
  = Py.rev_string "" cur :: Py.split_from nl s 0 "".
Proof.
  cbn [Py.split_from]. unfold nl at 1. cbn [String.prefix].
  destruct (Ascii.ascii_dec LF LF) as [_|Hne];
    [|exfalso; apply Hne; reflexivity].
  destruct s; reflexivity.
Qed.

(** [split] undoes [join] on lines without newline. *)
Lemma split_join_lines (qs : list string) :
  forall q,
    Forall (fun x => Py.all_chars (not_char LF) x = true) (q :: qs) ->
    Py.split nl (Py.join nl (q :: qs)) = q :: qs.
Proof.
  unfold Py.split.
  induction qs as [|q2 qs IH]; intros q Hall; inversion Hall as [|? ? Hq Hqs];
    subst.
  - cbn [Py.join String.concat].
    rewrite <- (append_empty_r q) at 1.
    rewrite split_from_piece by exact Hq. cbn [Py.split_from].
    rewrite rev_string_involutive. reflexivity.
  - rewrite join_cons by discriminate.
    rewrite split_from_piece by exact Hq.
    change (nl ++ Py.join nl (q2 :: qs))
      with (String LF (Py.join nl (q2 :: qs))).
    rewrite split_from_newline, rev_string_involutive.
    f_equal. apply IH. exact Hqs.
Qed.

End SplitFacts.

(** The loop keeps a clean question as it is. *)
Lemma clean_line_clean (q : string) :
  is_clean_question q = true -> clean_line q = Some q.
Proof.
  unfold is_clean_question. intros H.
  apply andb_true_iff in H as [H _].
  apply andb_true_iff in H as [H Hend].
  apply andb_true_iff in H as [H Hlen].
  apply andb_true_iff in H as [Hstrip Hmark].
  apply String.eqb_eq in Hstrip. apply Nat.leb_le in Hlen.
  unfold clean_line. rewrite Hstrip.
  destruct q as [|c q].
  - discriminate Hend.
  - cbn [Py.truthy negb]. simpl in Hmark.
    apply negb_true_iff, orb_false_iff in Hmark as [Hd Hb].
    assert (H1 : Re.sub_start false
                   (Re.Seq (Re.plus Py.isdigit)
                      (Re.Seq (Re.Cls is_dot_or_paren) (Re.star Py.isspace)))
                   "" (String c q) = String c q).
    { unfold Re.sub_start, Re.match_prefix, Re.plus. cbn [Re.run Re.rep].
      unfold Re.in_class. rewrite Hd. reflexivity. }
    rewrite H1.
    assert (H2 : Re.sub_start false
                   (Re.Seq (Re.Cls is_dash_or_star) (Re.star Py.isspace))
                   "" (String c q) = String c q).
    { unfold Re.sub_start, Re.match_prefix. cbn [Re.run].
      unfold Re.in_class. rewrite Hb. reflexivity. }
    rewrite H2, Hend.
    destruct (150 <? String.length (String c q)) eqn:E.
    + apply Nat.ltb_lt in E. lia.
    + reflexivity.
Qed.

Lemma cleaned_questions_clean (qs : list string) :
  qs <> [] ->
  Forall (fun q => is_clean_question q = true) qs ->
  cleaned_questions (Py.join nl qs) = qs.
Proof.
  intros Hne Hall. unfold cleaned_questions.
  destruct qs as [|q qs]; [contradiction|].
  rewrite split_join_lines.
  - clear Hne. induction Hall as [|x l Hx _ IH]; [reflexivity|].
    cbn [flat_map]. rewrite (clean_line_clean x Hx), IH. reflexivity.
  - eapply Forall_impl; [|exact Hall]. intros x Hx.
    unfold is_clean_question in Hx.
    apply andb_true_iff in Hx as [_ Hx]. exact Hx.
Qed.

(** X13.  When the reply of the model, stripped, consists of clean
    questions, one per line, [generate_sub_questions] returns the first
    three of them, unchanged and in order. *)
Theorem generate_sub_questions_well_formed_reply
    (env : Env) (main_question lang : string) (w : World)
    (r : ChatResponse) (qs : list string) :
  chat_oracle env
    (mkChatRequest CHAT_MODEL None
       (sub_questions_prompt main_question lang) (1 # 10) 150) = Ret r ->
  Py.strip (resp_content r) = Py.join nl qs ->
  qs <> [] ->
  Forall (fun q => is_clean_question q = true) qs ->
  fst (generate_sub_questions env main_question lang w)
  = Ret (firstn 3 qs).
Proof.
  intros Hr Hraw Hne Hall.
  cbv [generate_sub_questions try_except bind chat_completion log
       lift_outcome ret].
  rewrite Hr, Hraw, (cleaned_questions_clean qs Hne Hall).
  destruct qs as [|q qs]; [contradiction|]. reflexivity.
Qed.

Lemma generate_sub_questions_well_formed_reply_witness :
  let qs := ["What is a list?"; "Why sort a list?"; "How is it stored?";
             "Who needs it?"] in
  fst (generate_sub_questions
         (reply_env (" " ++ Py.join nl qs ++ nl)) "sorting" "en" empty_world)
  = Ret (firstn 3 qs).
Proof.
  cbv zeta.
  apply (generate_sub_questions_well_formed_reply
           (reply_env
              (" " ++ Py.join nl ["What is a list?"; "Why sort a list?";
                                  "How is it stored?"; "Who needs it?"]
               ++ nl))
           "sorting" "en" empty_world
           (mkChatResponse
              (" " ++ Py.join nl ["What is a list?"; "Why sort a list?";
                                  "How is it stored?"; "Who needs it?"]
               ++ nl) 1 1)).
  - reflexivity.
  - vm_compute. reflexivity.
  - discriminate.
  - repeat constructor.
Defined.

(** ** Characters are only removed, never added *)

Section SuffixFacts.

Lemma is_suffix_refl (s : string) : is_suffix s s.
Proof. exists "". reflexivity. Qed.

Lemma is_suffix_cons (x : ascii) (rest s : string) :
  is_suffix rest s -> is_suffix rest (String x s).
Proof. intros [pre ->]. exists (String x pre). reflexivity. Qed.

Lemma is_suffix_trans (a b c : string) :
  is_suffix a b -> is_suffix b c -> is_suffix a c.
Proof.
  intros [p ->] [q ->]. exists (q ++ p). rewrite append_assoc. reflexivity.
Qed.

(** Whatever a repetition lets through to the rest of the pattern is a
    suffix of the subject. *)
Lemma rep_suffix {A : Type} (ic : bool) (p : ascii -> bool)
    (k : string -> option A) (a : A) (s : string) :
  forall lo hi,
    Re.rep ic p lo hi s k = Some a ->
    exists s', is_suffix s' s /\ k s' = Some a.
Proof.
  induction s as [|x s IH]; intros lo hi H; cbn [Re.rep] in H.
  - destruct (lo =? 0); [|discriminate].
    exists "". split; [apply is_suffix_refl|exact H].
  - assert (Hstop : (if lo =? 0 then k (String x s) else None) = Some a ->
                    exists s', is_suffix s' (String x s) /\ k s' = Some a).
    { destruct (lo =? 0); [|discriminate]. intros Hk.
      exists (String x s). split; [apply is_suffix_refl|exact Hk]. }
    destruct (Re.in_class ic p x && Re.hi_allows hi); [|auto].
    destruct (Re.rep ic p (Nat.pred lo) (Re.hi_pred hi) s k) as [a'|] eqn:E;
      [|auto].
    injection H as ->. apply IH in E as (s' & Hs & Hk).
    exists s'. split; [apply is_suffix_cons; exact Hs|exact Hk].
Qed.

Lemma run_suffix {A : Type} (ic : bool) (r : Re.regex) :
  forall (s : string) (k : string -> option A) (a : A),
    Re.run ic r s k = Some a ->
    exists s', is_suffix s' s /\ k s' = Some a.
Proof.
  induction r as [|c|p|p lo hi|r1 IH1 r2 IH2|r1 IH1 r2 IH2];
    intros s k a H; cbn [Re.run] in H.
  - exists s. split; [apply is_suffix_refl|exact H].
  - destruct s as [|x s]; [discriminate|].
    destruct (Re.in_class ic (Re.is_char c) x); [|discriminate].
    exists s. split; [apply is_suffix_cons, is_suffix_refl|exact H].
  - destruct s as [|x s]; [discriminate|].
    destruct (Re.in_class ic p x); [|discriminate].
    exists s. split; [apply is_suffix_cons, is_suffix_refl|exact H].
  - eapply rep_suffix. exact H.
  - apply IH1 in H as (s1 & Hs1 & H). apply IH2 in H as (s2 & Hs2 & H).
    exists s2. split; [eapply is_suffix_trans; eassumption|exact H].
  - destruct (Re.run ic r1 s k) as [a'|] eqn:E.
    + injection H as ->. apply IH1. exact E.
    + apply IH2. exact H.
Qed.

(** What follows a match is a suffix of the subject. *)
Lemma match_prefix_suffix (ic : bool) (r : Re.regex) (s rest : string) :
  Re.match_prefix ic r s = Some rest -> is_suffix rest s.
Proof.
  unfold Re.match_prefix. intros H.
  apply run_suffix in H as (s' & Hs & [= <-]). exact Hs.
Qed.

End SuffixFacts.

Section AllCharsFacts.
Variable p : ascii -> bool.

Lemma all_chars_append (a b : string) :
  Py.all_chars p (a ++ b) = Py.all_chars p a && Py.all_chars p b.
Proof.
  induction a as [|c a IH]; simpl; [reflexivity|].
  rewrite IH, andb_assoc. reflexivity.
Qed.

Lemma all_chars_suffix (rest s : string) :
  is_suffix rest s -> Py.all_chars p s = true ->
  Py.all_chars p rest = true.
Proof.
  intros [pre ->]. rewrite all_chars_append.
  intros H. apply andb_true_iff in H as [_ H]. exact H.
Qed.

Lemma all_chars_lstrip (s : string) :
  Py.all_chars p s = true -> Py.all_chars p (Py.lstrip s) = true.
Proof.
  induction s as [|c s IH]; simpl; [reflexivity|]. intros H.
  destruct (Py.isspace c); [|exact H].
  apply andb_true_iff in H as [_ H]. apply IH. exact H.
Qed.

Lemma all_chars_rstrip (s : string) :
  Py.all_chars p s = true -> Py.all_chars p (Py.rstrip s) = true.
Proof.
  induction s as [|c s IH]; simpl; [reflexivity|]. intros H.
  apply andb_true_iff in H as [Hc H]. specialize (IH H).
  destruct (Py.rstrip s).
  - destruct (Py.isspace c); simpl; [reflexivity|].
    rewrite Hc. reflexivity.
  - cbn [Py.all_chars]. rewrite Hc. exact IH.
Qed.

Lemma all_chars_strip (s : string) :
  Py.all_chars p s = true -> Py.all_chars p (Py.strip s) = true.
Proof.
  intros H. unfold Py.strip. apply all_chars_rstrip, all_chars_lstrip.
  exact H.
Qed.

Lemma all_chars_rev_string (s : string) :
  forall acc,
    Py.all_chars p acc = true -> Py.all_chars p s = true ->
    Py.all_chars p (Py.rev_string acc s) = true.
Proof.
  induction s as [|c s IH]; intros acc Ha Hs; simpl.
  - exact Ha.
  - simpl in Hs. apply andb_true_iff in Hs as [Hc Hs].
    apply IH; [|exact Hs]. simpl. rewrite Hc. exact Ha.
Qed.

Lemma all_chars_split_from (sep s : string) :
  forall skip cur,
    Py.all_chars p s = true -> Py.all_chars p cur = true ->
    Forall (fun piece => Py.all_chars p piece = true)
      (Py.split_from sep s skip cur).
Proof.
  induction s as [|c s IH]; intros skip cur Hs Hcur; cbn [Py.split_from].
  - constructor; [|constructor]. apply all_chars_rev_string;
      [reflexivity|exact Hcur].
  - simpl in Hs. apply andb_true_iff in Hs as [Hc Hs].
    destruct skip as [|skip]; [|apply IH; assumption].
    destruct (String.prefix sep (String c s)).
    + constructor.
      * apply all_chars_rev_string; [reflexivity|exact Hcur].
      * apply IH; [exact Hs|reflexivity].
    + apply IH; [exact Hs|]. simpl. rewrite Hc. exact Hcur.
Qed.

Lemma all_chars_split (sep s : string) :
  Py.all_chars p s = true ->
  Forall (fun piece => Py.all_chars p piece = true) (Py.split sep s).
Proof.
  intros H. apply all_chars_split_from; [exact H|reflexivity].
Qed.

Lemma all_chars_sub_start (ic : bool) (r : Re.regex) (s : string) :
  Py.all_chars p s = true ->
  Py.all_chars p (Re.sub_start ic r "" s) = true.
Proof.
  intros H. unfold Re.sub_start.
  destruct (Re.match_prefix ic r s) as [rest|] eqn:E; [|exact H].
  apply match_prefix_suffix in E. simpl.
  eapply all_chars_suffix; eassumption.
Qed.

End AllCharsFacts.

Lemma endswith_needs_char (s : string) :
  Py.all_chars (not_char "?") s = true -> Py.endswith "?" s = false.
Proof.
  intros H. destruct (Py.endswith "?" s) eqn:E; [|reflexivity].
  apply endswith_sound in E as [pre ->].
  rewrite all_chars_append in H. apply andb_true_iff in H as [_ H].
  discriminate H.
Qed.

Lemma clean_line_no_question (line : string) :
  Py.all_chars (not_char "?") line = true -> clean_line line = None.
Proof.
  intros H. unfold clean_line.
  destruct (negb (Py.truthy (Py.strip line))); [reflexivity|].
  rewrite endswith_needs_char.
  - rewrite orb_true_r. reflexivity.
  - apply all_chars_sub_start, all_chars_sub_start, all_chars_strip.
    exact H.
Qed.

(** X14.  A reply without any question mark gives the fallback: every
    line is discarded, since characters are removed from a line and
    never added, and the single question "What is ...?" is returned. *)
Theorem generate_sub_questions_no_question_mark
    (env : Env) (main_question lang : string) (w : World)
    (r : ChatResponse) :
  chat_oracle env
    (mkChatRequest CHAT_MODEL None
       (sub_questions_prompt main_question lang) (1 # 10) 150) = Ret r ->
  Py.all_chars (not_char "?") (resp_content r) = true ->
  fst (generate_sub_questions env main_question lang w)
  = Ret [fallback_question main_question].
Proof.
  intros Hr Hq.
  assert (Hnone : cleaned_questions (Py.strip (resp_content r)) = []).
  { unfold cleaned_questions.
    pose proof (all_chars_split (not_char "?") nl _
                  (all_chars_strip _ _ Hq)) as Hall.
    induction Hall as [|line lines Hline _ IH]; [reflexivity|].
    cbn [flat_map]. rewrite (clean_line_no_question line Hline), IH.
    reflexivity. }
  cbv [generate_sub_questions try_except bind chat_completion log
       lift_outcome ret].
  rewrite Hr, Hnone. reflexivity.
Qed.

Lemma generate_sub_questions_no_question_mark_witness :
  fst (generate_sub_questions
         (reply_env "I cannot help with that.") "sorting" "en" empty_world)
  = Ret [fallback_question "sorting"].
Proof.
  apply (generate_sub_questions_no_question_mark
           (reply_env "I cannot help with that.") "sorting" "en" empty_world
           (mkChatResponse "I cannot help with that." 1 1)).
  - reflexivity.
  - reflexivity.
Defined.

(** ** Which paragraphs are headings *)

Ltac each_char c :=
  destruct c as [[] [] [] [] [] [] [] []]; vm_compute;
  try discriminate; try reflexivity; try (intros; repeat split; reflexivity).

Section HeadingChars.

Lemma non_heading_char (c : ascii) :
  is_ascii c = true ->
  is_hash c || is_ascii_letter c = false ->
  Re.in_class true is_hash c = false
  /\ Re.in_class true (Re.is_char "C") c = false
  /\ Re.in_class true (Re.is_char "S") c = false
  /\ Re.in_class true Py.isupper_ascii c = false.
Proof. each_char c. Qed.

Lemma letter_in_upper_class (c : ascii) :
  is_ascii_letter c = true -> Re.in_class true Py.isupper_ascii c = true.
Proof. each_char c. Qed.

Lemma letter_or_space_in_class (c : ascii) :
  is_letter_or_space c = true -> Re.in_class true is_AZ_space c = true.
Proof. each_char c. Qed.

End HeadingChars.

(** X15.  A paragraph whose first character is an ASCII character
    other than [#] and the letters, such as a digit, a bracket or a
    quote, is never taken for a heading.  The statement stops at the
    ASCII range because, in the program, a few characters beyond
    Latin-1 match a letter of the pattern under [re.IGNORECASE]. *)
Theorem heading_starts_with_hash_or_letter (para : string) :
  starts_with_class is_ascii para = true ->
  starts_like_heading para = false ->
  is_heading para = false.
Proof.
  destruct para as [|c s]; [reflexivity|].
  cbn [starts_with_class starts_like_heading]. intros Ha Hs.
  apply (non_heading_char c Ha) in Hs as (F1 & F2 & F3 & F4).
  unfold is_heading, Re.match_prefix, heading_pattern, numbered, Re.plus.
  cbn [Re.run Re.rep Re.lit]. rewrite F1, F2, F3, F4. reflexivity.
Qed.

Lemma heading_starts_with_hash_or_letter_witness :
  is_heading "2024 REPORT OF THE BOARD" = false
  /\ is_heading "(SEE THE APPENDIX)" = false.
Proof.
  split.
  - apply (heading_starts_with_hash_or_letter "2024 REPORT OF THE BOARD");
      reflexivity.
  - apply (heading_starts_with_hash_or_letter "(SEE THE APPENDIX)");
      reflexivity.
Defined.

Section RepFacts.
Context {A : Type}.
Variable ic : bool.
Variable p : ascii -> bool.
Variable k : string -> option A.
Hypothesis k_total : forall s, k s <> None.

(** A repetition without lower bound lets the rest of the pattern run
    somewhere. *)
Lemma rep_zero_total (s : string) :
  forall hi, Re.rep ic p 0 hi s k <> None.
Proof.
  induction s as [|x s IH]; intros hi; cbn [Re.rep Nat.eqb].
  - apply k_total.
  - destruct (Re.in_class ic p x && Re.hi_allows hi); [|apply k_total].
    destruct (Re.rep ic p (Nat.pred 0) (Re.hi_pred hi) s k);
      [discriminate|apply k_total].
Qed.

(** A repetition succeeds on a subject that starts with as many
    characters of the class as its lower bound asks for. *)
Lemma rep_min_succeeds (w : string) :
  forall (hi : nat) (rest : string),
    String.length w <= hi ->
    Py.all_chars (Re.in_class ic p) w = true ->
    Re.rep ic p (String.length w) (Some hi) (w ++ rest) k <> None.
Proof.
  induction w as [|x w IH]; intros hi rest Hhi Hw.
  - apply rep_zero_total.
  - simpl in Hhi, Hw. apply andb_true_iff in Hw as [Hx Hw].
    destruct hi as [|hi]; [lia|].
    change (String x w ++ rest) with (String x (w ++ rest)).
    cbn [Re.rep String.length Nat.eqb Re.hi_allows Re.hi_pred Nat.pred].
    rewrite Hx. cbn [andb].
    specialize (IH hi rest ltac:(lia) Hw).
    destruct (Re.rep ic p (String.length w) (Some hi) (w ++ rest) k);
      [discriminate|contradiction].
Qed.

End RepFacts.

Lemma all_chars_impl (p q : ascii -> bool) (s : string) :
  (forall c, p c = true -> q c = true) ->
  Py.all_chars p s = true -> Py.all_chars q s = true.
Proof.
  intros Hpq. induction s as [|c s IH]; simpl; [reflexivity|].
  intros H. apply andb_true_iff in H as [Hc H].
  rewrite (Hpq c Hc), (IH H). reflexivity.
Qed.

Lemma alt_right {A : Type} (ic : bool) (r1 r2 : Re.regex) (s : string)
    (k : string -> option A) :
  Re.run ic r2 s k <> None -> Re.run ic (Re.Alt r1 r2) s k <> None.
Proof.
  intros H. cbn [Re.run]. destruct (Re.run ic r1 s k); [discriminate|exact H].
Qed.

(** X16.  Any paragraph that starts with a letter followed by five
    letters or whitespace characters, in whatever case, is taken for a
    heading: ordinary prose such as "Hello world" opens a new chunk. *)
Theorem prose_is_heading (c : ascii) (w rest : string) :
  is_ascii_letter c = true ->
  String.length w = 5 ->
  Py.all_chars is_letter_or_space w = true ->
  is_heading (String c (w ++ rest)) = true.
Proof.
  intros Hc Hlen Hw.
  assert (H : Re.match_prefix true heading_pattern (String c (w ++ rest))
              <> None).
  { unfold Re.match_prefix, heading_pattern.
    apply alt_right, alt_right, alt_right.
    cbn [Re.run]. rewrite (letter_in_upper_class c Hc).
    rewrite <- Hlen. apply rep_min_succeeds.
    - intros s. unfold Re.opt. apply rep_zero_total. discriminate.
    - lia.
    - eapply all_chars_impl; [|exact Hw].
      intros x Hx. apply letter_or_space_in_class. exact Hx. }
  unfold is_heading.
  destruct (Re.match_prefix true heading_pattern (String c (w ++ rest)));
    [reflexivity|contradiction].
Qed.

Lemma prose_is_heading_witness :
  is_heading (String "H" ("ello " ++ "world, this is plain prose.")) = true.
Proof.
  apply (prose_is_heading "H" "ello " "world, this is plain prose.");
    reflexivity.
Defined.

(** ** The characters of the chunks *)

Section ChunkChars.
Variable p : ascii -> bool.
Hypothesis p_newline : p LF = true.

Lemma all_chars_sub_from (ic : bool) (r : Re.regex) (repl s : string) :
  Py.all_chars p repl = true ->
  forall skip,
    Py.all_chars p s = true ->
    Py.all_chars p (Re.sub_from ic r repl s skip) = true.
Proof.
  intros Hrepl. induction s as [|c s IH]; intros skip Hs; cbn [Re.sub_from].
  - destruct (Re.match_prefix ic r ""); [exact Hrepl|reflexivity].
  - simpl in Hs. apply andb_true_iff in Hs as [Hc Hs].
    destruct skip as [|skip]; [|apply IH; exact Hs].
    destruct (Re.match_prefix ic r (String c s)) as [rest|].
    + destruct (String.length (String c s) - String.length rest).
      * rewrite all_chars_append, Hrepl. simpl. rewrite Hc. apply IH.
        exact Hs.
      * rewrite all_chars_append, Hrepl. apply IH. exact Hs.
    + simpl. rewrite Hc. apply IH. exact Hs.
Qed.

Lemma all_chars_join (sep : string) (l : list string) :
  Py.all_chars p sep = true ->
  Forall (fun x => Py.all_chars p x = true) l ->
  Py.all_chars p (Py.join sep l) = true.
Proof.
  intros Hsep. induction 1 as [|x l Hx Hl IH]; [reflexivity|].
  destruct l as [|y l]; [exact Hx|].
  rewrite join_cons by discriminate.
  rewrite !all_chars_append, Hx, Hsep, IH. reflexivity.
Qed.

Lemma paragraphs_chars (text : string) :
  Py.all_chars p text = true ->
  Forall (fun x => Py.all_chars p x = true) (paragraphs text).
Proof.
  intros H. unfold paragraphs, normalize_newlines, Re.sub.
  apply Forall_forall. intros x Hx.
  apply in_map_iff in Hx as (y & <- & Hy). apply filter_In in Hy as [Hy _].
  apply all_chars_strip.
  assert (Hall : Forall (fun piece => Py.all_chars p piece = true)
                   (Py.split (nl ++ nl)
                      (Re.sub_from false crlf_pattern nl text 0))).
  { apply all_chars_split. apply all_chars_sub_from; [|exact H].
    simpl. rewrite p_newline. reflexivity. }
  rewrite Forall_forall in Hall. apply Hall. exact Hy.
Qed.

Hypothesis p_general : Py.all_chars p "General" = true.
Hypothesis p_untitled : Py.all_chars p "Untitled" = true.

Lemma heading_title_chars (para : string) :
  Py.all_chars p para = true -> Py.all_chars p (heading_title para) = true.
Proof.
  intros H. unfold heading_title.
  destruct (Py.truthy _); [|exact p_untitled].
  apply all_chars_strip, all_chars_sub_start. exact H.
Qed.

Lemma flush_chars (st : chunker) :
  Forall (chunk_chars p) (chunks st) ->
  Py.all_chars p (current_title st) = true ->
  Forall (fun x => Py.all_chars p x = true) (current_content st) ->
  Forall (chunk_chars p) (flush st).
Proof.
  intros Hc Ht Hp. unfold flush.
  destruct (nonempty (current_content st)); [|exact Hc].
  apply Forall_app. split; [exact Hc|]. constructor; [|constructor].
  split; [exact Ht|]. cbn [content]. apply all_chars_join; [|exact Hp].
  simpl. rewrite p_newline. reflexivity.
Qed.

Lemma chunk_loop_chars (ps : list string) :
  Forall (fun x => Py.all_chars p x = true) ps ->
  forall st,
    Forall (chunk_chars p) (chunks st) ->
    Py.all_chars p (current_title st) = true ->
    Forall (fun x => Py.all_chars p x = true) (current_content st) ->
    Forall (chunk_chars p) (flush (fold_left chunk_step ps st)).
Proof.
  induction 1 as [|x ps Hx _ IH]; intros st Hc Ht Hp.
  - apply flush_chars; assumption.
  - cbn [fold_left]. unfold chunk_step. destruct (is_heading x).
    + apply IH; cbn [chunks current_title current_content].
      * apply flush_chars; assumption.
      * apply heading_title_chars. exact Hx.
      * constructor; [exact Hx|constructor].
    + apply IH; cbn [chunks current_title current_content];
        [exact Hc|exact Ht|].
      apply Forall_app. split; [exact Hp|].
      constructor; [exact Hx|constructor].
Qed.

Lemma chunk_paragraphs_chars (ps : list string) :
  Forall (fun x => Py.all_chars p x = true) ps ->
  Forall (chunk_chars p) (chunk_paragraphs ps).
Proof.
  intros H. unfold chunk_paragraphs.
  apply chunk_loop_chars; [exact H|constructor|exact p_general|constructor].
Qed.

End ChunkChars.

(** X17.  Chunking adds no character: a property of characters that
    holds of every character of the text, of the newline and of the
    default titles "General" and "Untitled" holds of every character of
    the title and of the content of every chunk. *)
Theorem chunk_by_topic_no_new_chars (p : ascii -> bool) (text : string) :
  p LF = true ->
  Py.all_chars p "General" = true ->
  Py.all_chars p "Untitled" = true ->
  Py.all_chars p text = true ->
  Forall (chunk_chars p) (chunk_by_topic text).
Proof.
  intros Hnl Hg Hu Ht. unfold chunk_by_topic.
  apply chunk_paragraphs_chars; try assumption.
  apply paragraphs_chars; assumption.
Qed.

Lemma chunk_by_topic_no_new_chars_witness :
  Forall (chunk_chars (fun c => negb (Py.isdigit c)))
    (chunk_by_topic ("# Title" ++ nl ++ nl ++ "body text")).
Proof.
  apply (chunk_by_topic_no_new_chars (fun c => negb (Py.isdigit c))
           ("# Title" ++ nl ++ nl ++ "body text")); reflexivity.
Defined.

(** After normalization no carriage return is left. *)
Lemma normalize_newlines_no_cr (s : string) :
  forall skip,
    Py.all_chars (not_char CR) (Re.sub_from false crlf_pattern nl s skip)
    = true.
Proof.
  induction s as [|c s IH]; intros skip.
  - reflexivity.
  - cbn [Re.sub_from]. destruct skip as [|skip]; [|apply IH].
    unfold Re.match_prefix, crlf_pattern. cbn [Re.run].
    unfold Re.in_class, Re.is_char.
    destruct (Ascii.eqb CR c) eqn:Ec.
    + destruct s as [|x s'].
      * reflexivity.
      * destruct (Ascii.eqb LF x).
        -- replace (String.length (String c (String x s'))
                    - String.length s') with 2 by (cbn [String.length]; lia).
           rewrite all_chars_append. simpl Py.all_chars at 1.
           cbn [andb]. apply (IH 1).
        -- replace (String.length (String c (String x s'))
                    - String.length (String x s')) with 1 by (cbn [String.length]; lia).
           rewrite all_chars_append. simpl Py.all_chars at 1.
           cbn [andb]. apply (IH 0).
    + cbn [Py.all_chars]. unfold not_char at 1.
      rewrite Ascii.eqb_sym, Ec. cbn [negb andb]. apply IH.
Qed.

(** X18.  No carriage return survives chunking: whatever line endings
    the text uses, neither the title nor the content of a chunk contains
    a carriage return. *)
Theorem chunk_by_topic_no_carriage_return (text : string) :
  Forall (chunk_chars (not_char CR)) (chunk_by_topic text).
Proof.
  unfold chunk_by_topic.
  apply chunk_paragraphs_chars; try reflexivity.
  unfold paragraphs, normalize_newlines, Re.sub.
  apply Forall_forall. intros x Hx.
  apply in_map_iff in Hx as (y & <- & Hy). apply filter_In in Hy as [Hy _].
  apply all_chars_strip.
  assert (Hall : Forall (fun piece => Py.all_chars (not_char CR) piece = true)
                   (Py.split (nl ++ nl)
                      (Re.sub_from false crlf_pattern nl text 0))).
  { apply all_chars_split. apply normalize_newlines_no_cr. }
  rewrite Forall_forall in Hall. apply Hall. exact Hy.
Qed.

(** ** More on the stable sort *)

Lemma Qle_bool_false (a b : Q) : Qle_bool a b = false -> (b < a)%Q.
Proof.
  intros H. apply Qnot_le_lt. intros Hle.
  apply Qle_bool_iff in Hle. congruence.
Qed.

Ltac qprops :=
  repeat match goal with
    | H : Qle_bool _ _ = true |- _ => apply Qle_bool_iff in H
    | H : Qle_bool _ _ = false |- _ => apply Qle_bool_false in H
    end.

Section SortMore.
Context {X : Type}.
Variable key : X -> Q.

Lemma insert_desc_sorted (x : X) (l : list X) :
  sorted_desc key l -> sorted_desc key (insert_desc key x l).
Proof.
  unfold sorted_desc. induction 1 as [|y l Hl IH Hy]; cbn [insert_desc].
  - constructor; constructor.
  - destruct (Qle_bool (key y) (key x)) eqn:E; qprops.
    + constructor; [constructor; assumption|].
      constructor; [exact E|].
      eapply Forall_impl; [|exact Hy]. cbv beta. intros z Hz. lra.
    + constructor; [exact IH|].
      apply Forall_forall. intros z Hz.
      apply insert_desc_In in Hz as [->|Hz]; [lra|].
      rewrite Forall_forall in Hy. apply Hy. exact Hz.
Qed.

Lemma sort_desc_sorted (l : list X) : sorted_desc key (sort_desc key l).
Proof.
  induction l as [|x l IH]; cbn [sort_desc].
  - constructor.
  - apply insert_desc_sorted. exact IH.
Qed.

(** An element that is not below any other goes first. *)
Lemma insert_desc_head (x : X) (l : list X) :
  Forall (fun z => (key z <= key x)%Q) l ->
  insert_desc key x l = x :: l.
Proof.
  destruct 1 as [|z l Hz _]; cbn [insert_desc]; [reflexivity|].
  apply Qle_bool_iff in Hz. rewrite Hz. reflexivity.
Qed.

Lemma filter_insert_desc (f : X -> bool) (x : X) (l : list X) :
  sorted_desc key l ->
  filter f (insert_desc key x l)
  = if f x then insert_desc key x (filter f l) else filter f l.
Proof.
  unfold sorted_desc. induction 1 as [|y l Hl IH Hy]; cbn [insert_desc].
  - cbn [filter]. destruct (f x); reflexivity.
  - destruct (Qle_bool (key y) (key x)) eqn:E.
    + cbn [filter]. destruct (f x); [|reflexivity].
      symmetry. apply insert_desc_head. qprops.
      change (Forall (fun z => (key z <= key x)%Q) (filter f (y :: l))).
      apply Forall_forall. intros z Hz. apply filter_In in Hz as [Hz _].
      destruct Hz as [<-|Hz]; [exact E|].
      rewrite Forall_forall in Hy. specialize (Hy z Hz). cbv beta in Hy.
      lra.
    + cbn [filter]. rewrite IH.
      destruct (f y), (f x); cbn [insert_desc]; rewrite ?E; reflexivity.
Qed.

(** Filtering before or after the sort gives the same list. *)
Lemma filter_sort_desc (f : X -> bool) (l : list X) :
  filter f (sort_desc key l) = sort_desc key (filter f l).
Proof.
  induction l as [|x l IH]; cbn [sort_desc filter]; [reflexivity|].
  rewrite filter_insert_desc by apply sort_desc_sorted.
  rewrite IH. destruct (f x); reflexivity.
Qed.

(** Two insertions commute, unless the keys are equal and the elements
    are not. *)
Lemma insert_desc_comm (x y : X) (l : list X) :
  x = y \/ ~ (key x == key y)%Q ->
  insert_desc key x (insert_desc key y l)
  = insert_desc key y (insert_desc key x l).
Proof.
  intros [->|Hne]; [reflexivity|].
  induction l as [|z l IH]; cbn [insert_desc].
  - destruct (Qle_bool (key y) (key x)) eqn:E1,
             (Qle_bool (key x) (key y)) eqn:E2;
      try reflexivity; exfalso; qprops; first [lra | apply Hne; lra].
  - destruct (Qle_bool (key z) (key y)) eqn:Ezy,
             (Qle_bool (key z) (key x)) eqn:Ezx;
      cbn [insert_desc]; rewrite ?Ezy, ?Ezx;
      try (rewrite IH; reflexivity);
      destruct (Qle_bool (key y) (key x)) eqn:E1;
      destruct (Qle_bool (key x) (key y)) eqn:E2;
      cbn [insert_desc]; rewrite ?Ezy, ?Ezx;
      try reflexivity; exfalso; qprops; first [lra | apply Hne; lra].
Qed.

End SortMore.

Lemma sort_desc_permutation (ms ms' : list Match) :
  Permutation ms ms' ->
  distinct_scores ms ->
  sort_desc score_key ms = sort_desc score_key ms'.
Proof.
  unfold distinct_scores.
  induction 1 as [|x l l' Hp IH|x y l|l l' l'' Hp1 IH1 Hp2 IH2]; intros Hd.
  - reflexivity.
  - cbn [sort_desc]. rewrite IH; [reflexivity|].
    intros a b Ha Hb. apply Hd; right; assumption.
  - cbn [sort_desc]. apply insert_desc_comm.
    destruct (Qeq_dec (score_key y) (score_key x)) as [Heq|Hne].
    + left. apply Hd; [left; reflexivity|right; left; reflexivity|exact Heq].
    + right. exact Hne.
  - rewrite IH1 by exact Hd. apply IH2.
    intros a b Ha Hb. apply Hd.
    + eapply Permutation_in; [apply Permutation_sym; exact Hp1|exact Ha].
    + eapply Permutation_in; [apply Permutation_sym; exact Hp1|exact Hb].
Qed.

(** X19.  The order of the input is irrelevant when no two different
    matches have the same score: [build_context] returns the same
    string for every permutation of such a list. *)
Theorem build_context_order_irrelevant (ms ms' : list Match) :
  Permutation ms ms' ->
  distinct_scores ms ->
  build_context ms = build_context ms'.
Proof.
  intros Hp Hd. unfold build_context.
  rewrite (sort_desc_permutation ms ms' Hp Hd). reflexivity.
Qed.

Lemma build_context_order_irrelevant_witness :
  build_context [match_of "a" (3 # 10) "low"; match_of "b" (9 # 10) "high"]
  = build_context [match_of "b" (9 # 10) "high"; match_of "a" (3 # 10) "low"].
Proof.
  apply build_context_order_irrelevant.
  - apply perm_swap.
  - intros a b [<-|[<-|[]]] [<-|[<-|[]]] H; try reflexivity;
      vm_compute in H; discriminate H.
Defined.

(** ** When the two ways of enforcing the TTL agree *)

Lemma filter_hits (env : Env) (qvec : vector) (ts : Z)
    (st : list IndexedRecord) :
  Forall (fun r => md_expires_at (r_metadata r) <> None) st ->
  filter (not_expired ts) (map (hit env qvec) st)
  = map (hit env qvec) (filter (passes_filter (Some ts)) st).
Proof.
  induction 1 as [|r st Hr _ IH]; [reflexivity|].
  assert (Hsame : not_expired ts (hit env qvec r)
                  = passes_filter (Some ts) r).
  { unfold not_expired, passes_filter, metadata_or_empty, hit.
    cbn [m_metadata].
    destruct (md_expires_at (r_metadata r)); [reflexivity|contradiction]. }
  cbn [map filter]. rewrite IH, Hsame.
  destruct (passes_filter (Some ts) r); reflexivity.
Qed.

Lemma firstn_short {A : Type} (n : nat) (l : list A) :
  List.length l <= n -> firstn n l = l.
Proof.
  revert n. induction l as [|x l IH]; intros [|n] H; simpl in *;
    try reflexivity; try lia.
  f_equal. apply IH. lia.
Qed.

(** X20.  The two ways of enforcing the TTL return the same matches
    when every record of the index carries an [expires_at] and the
    index holds at most [top_k] records: then nothing is cut off before
    the manual filter runs and no record lacks the field. *)
Theorem retrieve_paths_agree (env : Env) (query : string) (top_k : nat)
    (w : World) :
  Forall (fun r => md_expires_at (r_metadata r) <> None) (store w) ->
  List.length (store w) <= top_k ->
  fst (retrieve (with_sdk true env) query top_k w)
  = fst (retrieve (with_sdk false env) query top_k w).
Proof.
  intros Hall Hlen. rewrite !retrieve_run.
  change (embed_oracle (with_sdk true env)) with (embed_oracle env).
  change (embed_oracle (with_sdk false env)) with (embed_oracle env).
  change (PINECONE_NEW (with_sdk true env)) with true.
  change (PINECONE_NEW (with_sdk false env)) with false.
  destruct (embed_oracle env query) as [[qvec n]|e]; [|reflexivity].
  cbv zeta. cbn [fst].
  change (retrieve_ts (with_sdk true env) w) with (retrieve_ts env w).
  change (retrieve_ts (with_sdk false env) w) with (retrieve_ts env w).
  change (hit (with_sdk true env) qvec) with (hit env qvec).
  change (hit (with_sdk false env) qvec) with (hit env qvec).
  f_equal. f_equal.
  assert (Hnone : filter (passes_filter None) (store w) = store w).
  { apply filter_all. apply Forall_forall. reflexivity. }
  rewrite Hnone.
  rewrite !firstn_short.
  - rewrite filter_sort_desc, filter_hits by exact Hall. reflexivity.
  - rewrite sort_desc_length, length_map. exact Hlen.
  - rewrite sort_desc_length, length_map.
    eapply Nat.le_trans; [apply filter_length_le|exact Hlen].
Qed.

Lemma retrieve_paths_agree_witness :
  let env := example_env true still_clock in
  let w :=
    mkWorld 0 [example_record "old" (9 # 10) "expired" (Some 10%Z);
               example_record "new" (8 # 10) "fresh" (Some 5000%Z)] [] in
  fst (retrieve (with_sdk true env) "q" 2 w)
  = fst (retrieve (with_sdk false env) "q" 2 w).
Proof.
  cbv zeta. apply retrieve_paths_agree.
  - repeat constructor; discriminate.
  - vm_compute. lia.
Defined.

(** ** Scraping collapses the blank lines *)

Section BlankLines.

Lemma is_LF_eq (c : ascii) : is_LF c = true -> c = LF.
Proof. unfold is_LF. apply Ascii.eqb_eq. Qed.

(** What a greedy run of newlines leaves does not start with one. *)
Lemma lf_rep_result (s : string) :
  forall lo r,
    lo <= 1 ->
    Re.rep false is_LF lo None s (fun rest => Some rest) = Some r ->
    starts_with_LF r = false.
Proof.
  induction s as [|x s IH]; intros lo r Hlo H; cbn [Re.rep] in H.
  - destruct (lo =? 0); [|discriminate]. injection H as <-. reflexivity.
  - unfold Re.in_class in H. cbn [Re.hi_allows Re.hi_pred] in H.
    destruct (is_LF x) eqn:Ex; cbn [andb] in H.
    + assert (Hp : Nat.pred lo = 0) by lia. rewrite Hp in H.
      destruct (Re.rep false is_LF 0 None s (fun rest => Some rest))
        as [a|] eqn:E.
      * injection H as ->. apply (IH 0 r); [lia|exact E].
      * exfalso. revert E. apply rep_zero_total. discriminate.
    + destruct (lo =? 0); [|discriminate]. injection H as <-.
      cbn [starts_with_LF]. exact Ex.
Qed.

Lemma blank_lines_match (c : ascii) (t : string) :
  Re.match_prefix false blank_lines_pattern (String c t)
  = if is_LF c
    then Re.rep false Py.isspace 0 None t
           (fun s1 => Re.rep false is_LF 1 None s1 (fun rest => Some rest))
    else None.
Proof.
  unfold Re.match_prefix, blank_lines_pattern, Re.star, Re.plus.
  cbn [Re.run]. unfold Re.in_class, Re.is_char, is_LF.
  rewrite (Ascii.eqb_sym LF c). reflexivity.
Qed.

(** What follows a match does not start with a newline. *)
Lemma blank_lines_rest (s rest : string) :
  Re.match_prefix false blank_lines_pattern s = Some rest ->
  starts_with_LF rest = false.
Proof.
  destruct s as [|c t]; [discriminate|]. rewrite blank_lines_match.
  destruct (is_LF c); [|discriminate]. intros H.
  apply rep_suffix in H as (s' & _ & H).
  apply (lf_rep_result s' 1 rest); [lia|exact H].
Qed.

(** A newline that starts no match is not followed by a newline. *)
Lemma blank_lines_no_match (c : ascii) (t : string) :
  is_LF c = true ->
  Re.match_prefix false blank_lines_pattern (String c t) = None ->
  starts_with_LF t = false.
Proof.
  intros Hc. rewrite blank_lines_match, Hc.
  destruct t as [|x t]; [reflexivity|]. cbn [starts_with_LF].
  destruct (is_LF x) eqn:Ex; [|reflexivity]. intros H. exfalso.
  revert H. cbn [Re.rep Nat.eqb]. unfold Re.in_class.
  apply is_LF_eq in Ex. subst x.
  change (Py.isspace LF) with true. cbn [Re.hi_allows andb].
  destruct (Re.rep false Py.isspace (Nat.pred 0) (Re.hi_pred None) t _);
    [discriminate|].
  change (is_LF LF) with true. cbn [andb Nat.pred Re.hi_pred].
  destruct (Re.rep false is_LF 0 None t (fun rest => Some rest)) eqn:E;
    [discriminate|].
  exfalso. revert E. apply rep_zero_total. discriminate.
Qed.

Lemma lf_runs_reset (n : nat) (s : string) :
  starts_with_LF s = false -> lf_runs_ok n s = lf_runs_ok 0 s.
Proof.
  destruct s as [|c s]; [reflexivity|]. cbn [starts_with_LF lf_runs_ok].
  intros ->. reflexivity.
Qed.

Lemma drop_app (pre rest : string) :
  drop (String.length pre) (pre ++ rest) = rest.
Proof.
  induction pre as [|c pre IH]; [destruct rest; reflexivity|exact IH].
Qed.

Lemma is_suffix_strict (rest : string) (c : ascii) (s : string) :
  is_suffix rest (String c s) -> rest = String c s \/ is_suffix rest s.
Proof.
  intros [[|x pre] H].
  - left. symmetry. exact H.
  - right. injection H as _ ->. exists pre. reflexivity.
Qed.

(** The substitution leaves no three newlines in a row, and its result
    starts with a newline only if what it was applied to does. *)
Lemma collapse_invariant (s : string) :
  forall skip,
    lf_runs_ok 0 (Re.sub_from false blank_lines_pattern (nl ++ nl) s skip)
    = true
    /\ (starts_with_LF (drop skip s) = false ->
        starts_with_LF
          (Re.sub_from false blank_lines_pattern (nl ++ nl) s skip)
        = false).
Proof.
  induction s as [|c s IH]; intros skip.
  - split; [reflexivity|]. intros _. reflexivity.
  - cbn [Re.sub_from]. destruct skip as [|skip]; [|apply IH].
    destruct (Re.match_prefix false blank_lines_pattern (String c s))
      as [rest|] eqn:E.
    + pose proof (blank_lines_rest _ _ E) as Hrest.
      pose proof (match_prefix_suffix _ _ _ _ E) as Hsuf.
      assert (Hc : is_LF c = true).
      { rewrite blank_lines_match in E.
        destruct (is_LF c); [reflexivity|discriminate]. }
      apply is_suffix_strict in Hsuf as [->|[pre ->]].
      { cbn [starts_with_LF] in Hrest. congruence. }
      replace (String.length (String c (pre ++ rest)) - String.length rest)
        with (S (String.length pre))
        by (cbn [String.length]; rewrite length_append; lia).
      destruct (IH (String.length pre)) as [Hok Hstart].
      rewrite drop_app in Hstart. specialize (Hstart Hrest).
      split.
      * change (lf_runs_ok 2
                  (Re.sub_from false blank_lines_pattern (nl ++ nl)
                     (pre ++ rest) (String.length pre)) = true).
        rewrite lf_runs_reset by exact Hstart. exact Hok.
      * cbn [drop starts_with_LF]. congruence.
    + destruct (IH 0) as [Hok Hstart]. cbn [drop] in Hstart.
      split.
      * cbn [lf_runs_ok]. destruct (is_LF c) eqn:Hc; [|exact Hok].
        rewrite lf_runs_reset; [exact Hok|].
        apply Hstart. eapply blank_lines_no_match; eassumption.
      * cbn [drop starts_with_LF]. intros H. exact H.
Qed.

Lemma lf_runs_mono (s : string) :
  forall n m, m <= n -> lf_runs_ok n s = true -> lf_runs_ok m s = true.
Proof.
  induction s as [|c s IH]; intros n m Hmn; cbn [lf_runs_ok];
    [reflexivity|].
  destruct (is_LF c); [|auto]. intros H.
  apply andb_true_iff in H as [Hn H]. apply Nat.ltb_lt in Hn.
  apply andb_true_iff. split; [apply Nat.ltb_lt; lia|].
  apply (IH (S n) (S m)); [lia|exact H].
Qed.

Lemma lf_runs_lstrip (s : string) :
  lf_runs_ok 0 s = true -> lf_runs_ok 0 (Py.lstrip s) = true.
Proof.
  induction s as [|c s IH]; cbn [Py.lstrip]; [reflexivity|]. intros H.
  destruct (Py.isspace c); [|exact H]. apply IH.
  cbn [lf_runs_ok] in H. destruct (is_LF c); [|exact H].
  apply andb_true_iff in H as [_ H].
  apply (lf_runs_mono s 1 0); [lia|exact H].
Qed.

Lemma lf_runs_rstrip (s : string) :
  forall n, lf_runs_ok n s = true -> lf_runs_ok n (Py.rstrip s) = true.
Proof.
  induction s as [|c s IH]; intros n H; cbn [Py.rstrip]; [reflexivity|].
  cbn [lf_runs_ok] in H.
  destruct (Py.rstrip s) as [|x r] eqn:Er.
  - destruct (Py.isspace c); [reflexivity|]. cbn [lf_runs_ok].
    destruct (is_LF c); [|reflexivity].
    apply andb_true_iff in H as [Hn _]. rewrite Hn. reflexivity.
  - cbn [lf_runs_ok]. destruct (is_LF c).
    + apply andb_true_iff in H as [Hn H]. rewrite Hn.
      apply (IH (S n)). exact H.
    + apply (IH 0). exact H.
Qed.

End BlankLines.

(** X21.  [scrape_url] never raises: without the libraries, or when
    fetching or parsing fails, it returns the empty string.  The text it
    returns holds no three newlines in a row, so two paragraphs are
    never separated by more than one blank line, and has no whitespace
    at its start. *)
Theorem scrape_url_collapses_blank_lines (web : Web) (url : string) :
  exists text,
    scrape_url web url = Ret text
    /\ no_triple_newline text = true
    /\ (text = "" \/ starts_nonspace text = true)
    /\ (web_libraries web = false -> text = "")
    /\ (forall e, visible_text web url = Raise e -> text = "").
Proof.
  unfold scrape_url. destruct (web_libraries web); cbn [negb].
  - destruct (visible_text web url) as [page|e].
    + exists (collapse_blank_lines page). split; [reflexivity|].
      split; [|split; [|split; [discriminate|discriminate]]].
      * unfold no_triple_newline, collapse_blank_lines, Py.strip, Re.sub.
        apply lf_runs_rstrip, lf_runs_lstrip, collapse_invariant.
      * unfold collapse_blank_lines.
        destruct (Py.truthy (Py.strip (Re.sub false blank_lines_pattern
                                         (nl ++ nl) page))) eqn:E.
        -- right. apply strip_starts. exact E.
        -- left. destruct (Py.strip _); [reflexivity|discriminate].
    + exists "". repeat split; auto.
  - exists "". repeat split; auto.
Qed.

(** ** A text gives no chunk exactly when it is blank *)

Section BlankFacts.

Lemma blank_strip (s : string) :
  is_blank s = true -> Py.strip s = "".
Proof.
  unfold is_blank, Py.strip. intros H.
  assert (Hl : Py.lstrip s = "").
  { induction s as [|c s IH]; [reflexivity|]. simpl in H.
    apply andb_true_iff in H as [Hc H]. simpl. rewrite Hc. apply IH.
    exact H. }
  rewrite Hl. reflexivity.
Qed.

Lemma rstrip_blank (s : string) :
  Py.rstrip s = "" -> is_blank s = true.
Proof.
  unfold is_blank. induction s as [|c s IH]; [reflexivity|].
  cbn [Py.rstrip Py.all_chars].
  destruct (Py.rstrip s); [|discriminate].
  destruct (Py.isspace c); [|discriminate]. intros _. apply IH.
  reflexivity.
Qed.

Lemma lstrip_blank (s : string) :
  is_blank (Py.lstrip s) = true -> is_blank s = true.
Proof.
  unfold is_blank. induction s as [|c s IH]; [reflexivity|].
  cbn [Py.lstrip]. destruct (Py.isspace c) eqn:Hc.
  - intros H. cbn [Py.all_chars]. rewrite Hc. apply IH. exact H.
  - intros H. exact H.
Qed.

(** A string is blank when stripping leaves nothing. *)
Lemma strip_blank (s : string) :
  Py.truthy (Py.strip s) = false -> is_blank s = true.
Proof.
  unfold Py.strip. intros H. apply lstrip_blank, rstrip_blank.
  destruct (Py.rstrip (Py.lstrip s)); [reflexivity|discriminate].
Qed.

Lemma rev_string_chars (p : ascii -> bool) (s : string) :
  forall acc,
    Py.all_chars p (Py.rev_string acc s) = true ->
    Py.all_chars p acc = true /\ Py.all_chars p s = true.
Proof.
  induction s as [|c s IH]; intros acc H; cbn [Py.rev_string] in H.
  - split; [exact H|reflexivity].
  - apply IH in H as [Ha Hs]. cbn [Py.all_chars] in Ha.
    apply andb_true_iff in Ha as [Hc Ha].
    split; [exact Ha|]. cbn [Py.all_chars]. rewrite Hc. exact Hs.
Qed.

Lemma prefix_blank_line (c : ascii) (s : string) :
  String.prefix (nl ++ nl) (String c s) = true ->
  c = LF /\ starts_with_LF s = true.
Proof.
  unfold nl. cbn [append String.prefix].
  destruct (Ascii.ascii_dec LF c) as [<-|_]; [|discriminate].
  destruct s as [|x s]; [discriminate|]. cbn [String.prefix].
  destruct (Ascii.ascii_dec LF x) as [<-|_]; [|discriminate].
  intros _. split; reflexivity.
Qed.

(** When every piece between the blank lines is blank, so is the
    string. *)
Lemma split_blank (s : string) :
  forall skip cur,
    skip = 0 \/ (skip = 1 /\ starts_with_LF s = true) ->
    Forall (fun piece => is_blank piece = true)
      (Py.split_from (nl ++ nl) s skip cur) ->
    is_blank s = true /\ is_blank cur = true.
Proof.
  unfold is_blank.
  induction s as [|c s IH]; intros skip cur Hskip Hall;
    cbn [Py.split_from] in Hall.
  - inversion Hall as [|? ? Hcur _]; subst.
    apply rev_string_chars in Hcur as [_ Hcur].
    split; [reflexivity|exact Hcur].
  - destruct Hskip as [->|[-> Hlf]].
    + destruct (String.prefix (nl ++ nl) (String c s)) eqn:Ep.
      * apply prefix_blank_line in Ep as [-> Hs].
        inversion Hall as [|? ? Hcur Hrest]; subst.
        apply rev_string_chars in Hcur as [_ Hcur].
        apply IH in Hrest as [Hs' _];
          [|right; split; [reflexivity|exact Hs]].
        split; [|exact Hcur]. cbn [Py.all_chars]. rewrite Hs'. reflexivity.
      * apply IH in Hall as [Hs Hcur]; [|left; reflexivity].
        cbn [Py.all_chars] in Hcur.
        apply andb_true_iff in Hcur as [Hc Hcur].
        split; [|exact Hcur]. cbn [Py.all_chars]. rewrite Hc. exact Hs.
    + cbn [starts_with_LF] in Hlf. apply is_LF_eq in Hlf. subst c.
      apply IH in Hall as [Hs Hcur]; [|left; reflexivity].
      split; [|exact Hcur]. cbn [Py.all_chars]. rewrite Hs. reflexivity.
Qed.

(** Normalizing the line ends of a string that is not blank leaves a
    string that is not blank. *)
Lemma normalize_blank (s : string) :
  forall skip,
    skip = 0 \/ (skip = 1 /\ starts_with_LF s = true) ->
    is_blank (Re.sub_from false crlf_pattern nl s skip) = true ->
    is_blank s = true.
Proof.
  unfold is_blank.
  induction s as [|c s IH]; intros skip Hskip H; [reflexivity|].
  cbn [Re.sub_from] in H. destruct Hskip as [->|[-> Hlf]].
  - revert H. unfold Re.match_prefix, crlf_pattern. cbn [Re.run].
    unfold Re.in_class, Re.is_char.
    destruct (Ascii.eqb CR c) eqn:Ec.
    + apply Ascii.eqb_eq in Ec. subst c. destruct s as [|x s'].
      * intros _. reflexivity.
      * destruct (Ascii.eqb LF x) eqn:Ex.
        -- replace (String.length (String CR (String x s'))
                    - String.length s') with 2
             by (cbn [String.length]; lia).
           rewrite all_chars_append. intros H.
           apply andb_true_iff in H as [_ H].
           apply IH in H; [|right; split; [reflexivity|]].
           ++ cbn [Py.all_chars]. cbn [Py.all_chars] in H. exact H.
           ++ cbn [starts_with_LF]. unfold is_LF.
              rewrite Ascii.eqb_sym. exact Ex.
        -- replace (String.length (String CR (String x s'))
                    - String.length (String x s')) with 1
             by (cbn [String.length]; lia).
           rewrite all_chars_append. intros H.
           apply andb_true_iff in H as [_ H].
           apply IH in H; [|left; reflexivity].
           cbn [Py.all_chars]. cbn [Py.all_chars] in H. exact H.
    + cbn [Py.all_chars]. intros H. apply andb_true_iff in H as [Hc H].
      rewrite Hc. apply (IH 0); [left; reflexivity|exact H].
  - cbn [starts_with_LF] in Hlf. apply is_LF_eq in Hlf. subst c.
    cbn [Py.all_chars]. apply (IH 0); [left; reflexivity|exact H].
Qed.

End BlankFacts.

Lemma paragraphs_of_blank (text : string) :
  is_blank text = true -> paragraphs text = [].
Proof.
  intros H. unfold paragraphs, normalize_newlines, Re.sub.
  assert (Hall : Forall (fun piece => Py.all_chars Py.isspace piece = true)
                   (Py.split (nl ++ nl)
                      (Re.sub_from false crlf_pattern nl text 0))).
  { apply all_chars_split. apply all_chars_sub_from;
      first [exact H | reflexivity]. }
  change (Re.Alt (Re.Seq (Re.Chr CR) (Re.Chr LF)) (Re.Chr CR))
    with crlf_pattern.
  induction Hall as [|x l Hx _ IH]; [reflexivity|].
  cbn [filter]. rewrite (blank_strip x Hx). exact IH.
Qed.

Lemma paragraphs_nil_blank (text : string) :
  paragraphs text = [] -> is_blank text = true.
Proof.
  unfold paragraphs, normalize_newlines, Re.sub, Py.split. intros H.
  change (Re.Alt (Re.Seq (Re.Chr CR) (Re.Chr LF)) (Re.Chr CR))
    with crlf_pattern in H.
  apply map_eq_nil in H.
  apply (normalize_blank text 0); [left; reflexivity|].
  apply (split_blank _ 0 ""); [left; reflexivity|].
  apply Forall_forall. intros x Hx.
  destruct (Py.truthy (Py.strip x)) eqn:E.
  - assert (Hin : In x (filter (fun p => Py.truthy (Py.strip p))
                          (Py.split_from (nl ++ nl)
                             (Re.sub_from false crlf_pattern nl text 0)
                             0 ""))).
    { apply filter_In. split; assumption. }
    rewrite H in Hin. contradiction.
  - apply strip_blank. exact E.
Qed.

Lemma chunks_nil_blank (text : string) :
  chunk_by_topic text = [] -> is_blank text = true.
Proof.
  intros H. apply paragraphs_nil_blank.
  apply (f_equal (@List.length Chunk)) in H.
  unfold chunk_by_topic, chunk_paragraphs in H.
  rewrite chunk_loop_length in H.
  cbn [List.length chunks current_content chunker_init nonempty orb] in H.
  destruct (paragraphs text) as [|p ps]; [reflexivity|].
  unfold heading_count in H. cbn [filter has_preamble] in H.
  destruct (is_heading p); cbn [negb List.length] in H; lia.
Qed.

(** X22.  [chunk_by_topic] returns no chunk exactly when the text is
    empty or whitespace only: any visible character ends up in a
    chunk. *)
Theorem chunk_by_topic_empty_iff_blank (text : string) :
  chunk_by_topic text = [] <-> is_blank text = true.
Proof.
  split.
  - apply chunks_nil_blank.
  - intros H. unfold chunk_by_topic. rewrite (paragraphs_of_blank text H).
    reflexivity.
Qed.

(** ** Ingesting a web page *)

(** X23.  When [process_url] reports success, the number of chunks it
    shows is positive and is the number of records that the call handed
    to the index; each of them has the source [url_<netloc>] and the
    bounds of a record. *)
Theorem process_url_success (web : Web) (env : Env) (url name : string)
    (n : nat) (w w' : World) :
  process_url web env url w = (Success n name, w') ->
  name = url
  /\ 0 < n
  /\ exists host recs,
      urlparse_netloc web url = Ret host
      /\ upserted (trace w') = (upserted (trace w) ++ recs)%list
      /\ List.length recs = n
      /\ Forall (record_invariant ("url_" ++ host)) recs.
Proof.
  unfold process_url. destruct (valid_url url); [|discriminate].
  destruct (scrape_url web url) as [text|e]; [|discriminate].
  destruct (Py.truthy (Py.strip text)) eqn:Etext; [|discriminate].
  cbv zeta. destruct (urlparse_netloc web url) as [host|e]; [|discriminate].
  destruct (upsert_chunks env (chunk_by_topic text) ("url_" ++ host)
              DEFAULT_TTL_HOURS w) as [[[]|e] w1] eqn:Erun; [|discriminate].
  intros [= <- <- <-]. split; [reflexivity|]. split.
  - destruct (chunk_by_topic text) eqn:Ec; [|cbn; lia].
    apply chunks_nil_blank in Ec.
    rewrite (blank_strip text Ec) in Etext. discriminate.
  - exists host.
    pose proof Erun as Hrun.
    apply upsert_chunks_run in Hrun as (w0 & Hw0 & Hloop).
    pose proof Hloop as Hshape.
    apply upsert_loop_shape in Hshape as (recs & Hu & Hinv).
    apply upsert_loop_run in Hloop as (recs' & Hu' & _ & Hf).
    rewrite Hw0 in Hu, Hu'.
    assert (recs' = recs)
      by (apply (app_inv_head (upserted (trace w))); congruence).
    subst recs'.
    exists recs. repeat split; [exact Hu| |exact Hinv].
    apply Forall2_length in Hf. rewrite <- Hf.
    rewrite filter_all; [reflexivity|].
    eapply Forall_impl; [|exact (chunks_well_formed text)].
    intros c [_ Hc]. apply kept_of_starts. exact Hc.
Qed.

Lemma process_url_success_witness :
  let web := example_web ("# Title" ++ nl ++ nl ++ "1. body") in
  let env := example_env true still_clock in
  let w' := snd (process_url web env "https://example.org/a" empty_world) in
  "https://example.org/a" = "https://example.org/a"
  /\ 0 < 1
  /\ exists host recs,
      urlparse_netloc web "https://example.org/a" = Ret host
      /\ upserted (trace w') = (upserted (trace empty_world) ++ recs)%list
      /\ List.length recs = 1
      /\ Forall (record_invariant ("url_" ++ host)) recs.
Proof.
  cbv zeta.
  apply (process_url_success
           (example_web ("# Title" ++ nl ++ nl ++ "1. body"))
           (example_env true still_clock)
           "https://example.org/a" "https://example.org/a" 1 empty_world).
  vm_compute. reflexivity.
Defined.

(** X24.  [process_url] touches nothing unless it has a text to ingest:
    a URL that does not start with [http://] or [https://] is refused,
    and a page that cannot be scraped (libraries missing, or any error
    while fetching or parsing) is reported as a page without content,
    not as an error; in both cases nothing is embedded or written. *)
Theorem process_url_nothing_to_ingest (web : Web) (env : Env)
    (url : string) (w : World) :
  (valid_url url = false ->
   process_url web env url w = (ErrorInvalidURL, w))
  /\ (valid_url url = true ->
      web_libraries web = false
      \/ (exists e, visible_text web url = Raise e) ->
      process_url web env url w = (ErrorNoContent, w)).
Proof.
  unfold process_url. split; intros Hv; rewrite Hv; [reflexivity|].
  intros Hfail.
  assert (Hs : scrape_url web url = Ret "").
  { unfold scrape_url. destruct Hfail as [->|[e He]]; [reflexivity|].
    rewrite He. destruct (web_libraries web); reflexivity. }
  rewrite Hs. reflexivity.
Qed.

Lemma process_url_nothing_to_ingest_witness :
  process_url offline_web (example_env true still_clock)
    "https://example.org/a" empty_world
  = (ErrorNoContent, empty_world).
Proof.
  apply (proj2 (process_url_nothing_to_ingest offline_web
                  (example_env true still_clock)
                  "https://example.org/a" empty_world)).
  - reflexivity.
  - right. eexists. reflexivity.
Defined.

(** ** The records of a batch do not overwrite one another *)

Section DecimalFacts.

Lemma digits_fuel_app (f : nat) :
  forall n acc,
    Py.digits_fuel f n acc = Py.digits_fuel f n "" ++ acc.
Proof.
  induction f as [|f IH]; intros n acc; cbn [Py.digits_fuel].
  - reflexivity.
  - destruct (N.ltb n 10); [reflexivity|].
    rewrite IH. rewrite (IH _ (String _ "")).
    rewrite append_assoc. reflexivity.
Qed.

Lemma decimal_value_app (s t : string) :
  forall a, decimal_value (s ++ t) a = decimal_value t (decimal_value s a).
Proof.
  induction s as [|c s IH]; intros a; [reflexivity|]. apply IH.
Qed.

Lemma digit_value_char (n : N) :
  digit_value (Py.digit_char (N.to_nat (n mod 10))) = (n mod 10)%N.
Proof.
  assert (H : (n mod 10 < 10)%N) by (apply N.mod_lt; discriminate).
  unfold digit_value, Py.digit_char.
  rewrite nat_ascii_embedding by lia.
  rewrite (Nat.add_comm 48), Nat.add_sub. apply N2Nat.id.
Qed.

(** Reading the digits of a number gives the number back. *)
Lemma decimal_value_digits (f : nat) :
  forall n,
    (n < 2 ^ N.of_nat f)%N ->
    decimal_value (Py.digits_fuel f n "") 0 = n.
Proof.
  induction f as [|f IH]; intros n Hn; cbn [Py.digits_fuel].
  - change (2 ^ N.of_nat 0)%N with 1%N in Hn.
    cbn [decimal_value]. lia.
  - rewrite Nat2N.inj_succ, N.pow_succ_r' in Hn.
    destruct (N.ltb_spec n 10) as [Hlt|Hge].
    + cbn [decimal_value]. rewrite digit_value_char.
      rewrite N.mod_small by exact Hlt. lia.
    + rewrite digits_fuel_app, decimal_value_app.
      rewrite IH.
      * cbn [decimal_value]. rewrite digit_value_char.
        pose proof (N.div_mod n 10 ltac:(discriminate)). lia.
      * apply N.Div0.div_lt_upper_bound. lia.
Qed.

Lemma decimal_value_str_of_N (n : N) :
  decimal_value (Py.str_of_N n) 0 = n.
Proof.
  unfold Py.str_of_N. apply decimal_value_digits.
  rewrite Nat2N.inj_succ, N2Nat.id.
  destruct n as [|p]; [reflexivity|].
  apply N.log2_spec. reflexivity.
Qed.

(** Different numbers are written differently. *)
Lemma str_of_nat_inj (i j : nat) :
  Py.str_of_nat i = Py.str_of_nat j -> i = j.
Proof.
  unfold Py.str_of_nat. intros H.
  apply (f_equal (fun s => decimal_value s 0)) in H.
  rewrite !decimal_value_str_of_N in H. lia.
Qed.

Lemma digit_char_no_underscore (n : N) :
  not_char "_" (Py.digit_char (N.to_nat (n mod 10))) = true.
Proof.
  assert (H : (n mod 10 < 10)%N) by (apply N.mod_lt; discriminate).
  assert (Hd : N.to_nat (n mod 10) < 10) by lia.
  destruct (N.to_nat (n mod 10)) as [|[|[|[|[|[|[|[|[|[|d]]]]]]]]]];
    try reflexivity; lia.
Qed.

Lemma digits_no_underscore (f : nat) :
  forall n acc,
    Py.all_chars (not_char "_") acc = true ->
    Py.all_chars (not_char "_") (Py.digits_fuel f n acc) = true.
Proof.
  induction f as [|f IH]; intros n acc Hacc; cbn [Py.digits_fuel].
  - exact Hacc.
  - assert (Hc : Py.all_chars (not_char "_")
                   (String (Py.digit_char (N.to_nat (n mod 10))) acc) = true).
    { cbn [Py.all_chars]. rewrite digit_char_no_underscore. exact Hacc. }
    destruct (N.ltb n 10); [exact Hc|]. apply IH. exact Hc.
Qed.

Lemma str_of_Z_no_underscore (z : Z) :
  Py.all_chars (not_char "_") (Py.str_of_Z z) = true.
Proof.
  unfold Py.str_of_Z, Py.str_of_N.
  destruct z as [|p|p].
  - apply digits_no_underscore. reflexivity.
  - apply digits_no_underscore. reflexivity.
  - cbn [Py.all_chars]. change (not_char "_" "-") with true. cbn [andb].
    apply digits_no_underscore. reflexivity.
Qed.

Lemma append_inv_head (a b c : string) : a ++ b = a ++ c -> b = c.
Proof.
  induction a as [|x a IH]; simpl; [auto|].
  intros [= H]. apply IH. exact H.
Qed.

(** Two strings that agree up to and after their first underscore. *)
Lemma split_at_underscore (a a' b b' : string) :
  Py.all_chars (not_char "_") a = true ->
  Py.all_chars (not_char "_") a' = true ->
  a ++ "_" ++ b = a' ++ "_" ++ b' -> b = b'.
Proof.
  revert a'. induction a as [|x a IH]; intros [|y a'] Ha Ha' H.
  - injection H as H. exact H.
  - injection H as Hy _. subst y. discriminate Ha'.
  - injection H as Hx _. subst x. discriminate Ha.
  - cbn [Py.all_chars] in Ha, Ha'.
    apply andb_true_iff in Ha as [_ Ha].
    apply andb_true_iff in Ha' as [_ Ha'].
    injection H as _ H. apply (IH a'); assumption.
Qed.

(** The id of a record determines its index in the batch. *)
Lemma batch_id_inj (source : string) (t t' : Z) (i j : nat) :
  batch_id source t i = batch_id source t' j -> i = j.
Proof.
  unfold batch_id. intros H. apply append_inv_head in H.
  injection H as H. apply str_of_nat_inj.
  eapply split_at_underscore; [| |exact H]; apply str_of_Z_no_underscore.
Qed.

End DecimalFacts.

Lemma upsert_one_store (env : Env) (source : string) (expiry : option Z)
    (i : nat) (c : Chunk) (w w' : World) :
  upsert_one env source expiry (i, c) w = (Ret tt, w') ->
  if kept c
  then exists r t,
      trace w' = (trace w ++ [EvEmbed (stored_text c); EvUpsert r])%list
      /\ r_id r = batch_id source t i
      /\ store w'
         = (filter (fun r' => negb (String.eqb (r_id r') (r_id r)))
              (store w) ++ [r])%list
  else w' = w.
Proof.
  unfold upsert_one. fold (stored_text c). fold (kept c).
  destruct (kept c) eqn:Hk; cbn [negb].
  - cbv [bind embed_text log lift_outcome int_time read_clock ret
           index_upsert].
    cbn [ticks store trace].
    destruct (embed_oracle env _) as [[vec n]|e];
      [|intros H; discriminate H].
    match goal with
    | |- context [upsert_oracle env ?r] =>
        destruct (upsert_oracle env r);
          intros H; [discriminate H|]; exists r
    end.
    eexists. injection H as <-. cbn [trace store r_id].
    rewrite <- app_assoc. repeat split.
  - unfold ret. intros [= <-]. reflexivity.
Qed.

Lemma upsert_loop_store (env : Env) (source : string) (expiry : option Z)
    (cs : list Chunk) :
  forall (i : nat) (w w' : World),
    for_each (enumerate_from i cs) (upsert_one env source expiry) w
    = (Ret tt, w') ->
    exists recs,
      upserted (trace w') = (upserted (trace w) ++ recs)%list
      /\ Forall (fun r => exists t j, i <= j /\ r_id r = batch_id source t j)
           recs
      /\ NoDup (map r_id recs)
      /\ Forall (fun r => In r (store w')) recs
      /\ (forall r, In r (store w) -> ~ In (r_id r) (map r_id recs) ->
                    In r (store w')).
Proof.
  induction cs as [|c cs IH]; intros i w w' Hrun.
  - injection Hrun as <-. exists []. rewrite app_nil_r.
    repeat split; try constructor. auto.
  - cbn [enumerate_from for_each] in Hrun. unfold bind in Hrun at 1.
    destruct (upsert_one env source expiry (i, c) w) as [[[]|e] w1] eqn:H1;
      [|discriminate Hrun].
    apply upsert_one_store in H1.
    apply IH in Hrun as (recs & Hu & Hids & Hnd & Hin & Hold).
    destruct (kept c).
    + destruct H1 as (r & t & Ht & Hid & Hst).
      assert (Hfresh : ~ In (r_id r) (map r_id recs)).
      { intros Hr. apply in_map_iff in Hr as (r' & Heq & Hr').
        rewrite Forall_forall in Hids.
        destruct (Hids r' Hr') as (t' & j & Hj & Hid').
        rewrite Hid, Hid' in Heq. apply batch_id_inj in Heq. lia. }
      exists (r :: recs). rewrite Hu, Ht, upserted_app. simpl upserted.
      rewrite <- app_assoc. split; [reflexivity|].
      split; [|split; [|split]].
      * constructor; [exists t, i; split; [lia|exact Hid]|].
        eapply Forall_impl; [|exact Hids].
        intros r' (t' & j & Hj & Hid'). exists t', j. split; [lia|exact Hid'].
      * cbn [map]. constructor; assumption.
      * constructor; [|exact Hin]. apply Hold; [|exact Hfresh].
        rewrite Hst. apply in_or_app. right. left. reflexivity.
      * intros r0 Hr0 Hnot. apply Hold.
        -- rewrite Hst. apply in_or_app. left. apply filter_In.
           split; [exact Hr0|]. apply negb_true_iff, String.eqb_neq.
           intros Heq. apply Hnot. left. symmetry. exact Heq.
        -- intros Hr. apply Hnot. right. exact Hr.
    + subst w1. exists recs. split; [exact Hu|].
      split; [|split; [exact Hnd|split; [exact Hin|exact Hold]]].
      eapply Forall_impl; [|exact Hids].
      intros r' (t' & j & Hj & Hid'). exists t', j. split; [lia|exact Hid'].
Qed.

(** X25.  The records of a batch do not overwrite one another: in a run
    that does not raise, the ids of the records handed to the index are
    pairwise distinct, and every one of these records is in the index
    when [upsert_chunks] returns. *)
Theorem upsert_batch_ids_distinct (env : Env) (cs : list Chunk)
    (source : string) (ttl_hours : Z) (w w' : World) :
  upsert_chunks env cs source ttl_hours w = (Ret tt, w') ->
  exists recs,
    upserted (trace w') = (upserted (trace w) ++ recs)%list
    /\ NoDup (map r_id recs)
    /\ Forall (fun r => In r (store w')) recs.
Proof.
  rewrite upsert_chunks_unfold. intros Hrun.
  apply upsert_loop_store in Hrun as (recs & Hu & _ & Hnd & Hin & _).
  exists recs. split; [|split; assumption].
  rewrite Hu. unfold batch_start.
  destruct (ttl_hours >? 0)%Z; reflexivity.
Qed.

Lemma upsert_batch_ids_distinct_witness :
  let env := example_env true still_clock in
  let cs := [mkChunk "a" "one"; mkChunk "b" "two"] in
  let w' := snd (upsert_chunks env cs "s" 1 empty_world) in
  exists recs,
    upserted (trace w') = (upserted (trace empty_world) ++ recs)%list
    /\ NoDup (map r_id recs)
    /\ Forall (fun r => In r (store w')) recs.
Proof.
  cbv zeta.
  apply (upsert_batch_ids_distinct (example_env true still_clock)
           [mkChunk "a" "one"; mkChunk "b" "two"] "s" 1 empty_world).
  vm_compute. reflexivity.
Defined.

(** ** The titles are clean *)

Section GreedyFacts.
Variable p : ascii -> bool.

(** What a greedy repetition leaves does not start with a character of
    its class. *)
Lemma greedy_rep_result (s : string) :
  forall lo r,
    lo <= 1 ->
    Re.rep false p lo None s (fun rest => Some rest) = Some r ->
    starts_with_class p r = false.
Proof.
  induction s as [|x s IH]; intros lo r Hlo H; cbn [Re.rep] in H.
  - destruct (lo =? 0); [|discriminate]. injection H as <-. reflexivity.
  - unfold Re.in_class in H. cbn [Re.hi_allows Re.hi_pred] in H.
    destruct (p x) eqn:Ex; cbn [andb] in H.
    + assert (Hp : Nat.pred lo = 0) by lia. rewrite Hp in H.
      destruct (Re.rep false p 0 None s (fun rest => Some rest))
        as [a|] eqn:E.
      * injection H as ->. apply (IH 0 r); [lia|exact E].
      * exfalso. revert E. apply rep_zero_total. discriminate.
    + destruct (lo =? 0); [|discriminate]. injection H as <-.
      cbn [starts_with_class]. exact Ex.
Qed.

(** Removing a leading run of the class leaves a string that does not
    start with a character of the class. *)
Lemma sub_start_plus_result (s : string) :
  starts_with_class p (Re.sub_start false (Re.plus p) "" s) = false.
Proof.
  unfold Re.sub_start, Re.match_prefix, Re.plus. cbn [Re.run].
  destruct (Re.rep false p 1 None s (fun rest => Some rest)) as [r|] eqn:E.
  - cbn [append]. apply (greedy_rep_result s 1 r); [lia|exact E].
  - destruct s as [|x s]; [reflexivity|]. cbn [starts_with_class].
    destruct (p x) eqn:Ex; [|reflexivity]. exfalso. revert E.
    cbn [Re.rep]. unfold Re.in_class. rewrite Ex.
    cbn [Re.hi_allows andb Nat.pred Re.hi_pred].
    destruct (Re.rep false p 0 None s (fun rest => Some rest)) eqn:E0;
      [discriminate|].
    exfalso. revert E0. apply rep_zero_total. discriminate.
Qed.

End GreedyFacts.

Lemma junk_of_space (c : ascii) :
  is_title_junk c = false -> Py.isspace c = false.
Proof.
  unfold is_title_junk. intros H.
  apply orb_false_iff in H as [_ H]. exact H.
Qed.

Lemma strip_keeps_head (s : string) :
  starts_with_class is_title_junk s = false ->
  starts_with_class is_title_junk (Py.strip s) = false.
Proof.
  destruct s as [|c s]; [reflexivity|]. cbn [starts_with_class].
  intros Hc. pose proof (junk_of_space c Hc) as Hs.
  unfold Py.strip. cbn [Py.lstrip]. rewrite Hs. cbn [Py.rstrip].
  destruct (Py.rstrip s); [rewrite Hs|]; cbn [starts_with_class]; exact Hc.
Qed.

Lemma heading_title_clean (para : string) : clean_title (heading_title para).
Proof.
  unfold heading_title, clean_title.
  destruct (Py.truthy _) eqn:E; [|right; left; reflexivity].
  right. right. split.
  - intros H. rewrite H in E. discriminate.
  - apply strip_keeps_head, sub_start_plus_result.
Qed.

Lemma flush_titles (st : chunker) :
  Forall (fun c => clean_title (title c)) (chunks st) ->
  clean_title (current_title st) ->
  Forall (fun c => clean_title (title c)) (flush st).
Proof.
  intros Hc Ht. unfold flush.
  destruct (nonempty (current_content st)); [|exact Hc].
  apply Forall_app. split; [exact Hc|].
  constructor; [exact Ht|constructor].
Qed.

Lemma chunk_loop_titles (ps : list string) :
  forall st,
    Forall (fun c => clean_title (title c)) (chunks st) ->
    clean_title (current_title st) ->
    Forall (fun c => clean_title (title c))
      (flush (fold_left chunk_step ps st)).
Proof.
  induction ps as [|x ps IH]; intros st Hc Ht.
  - apply flush_titles; assumption.
  - cbn [fold_left]. unfold chunk_step. destruct (is_heading x).
    + apply IH; cbn [chunks current_title].
      * apply flush_titles; assumption.
      * apply heading_title_clean.
    + apply IH; cbn [chunks current_title]; assumption.
Qed.

(** X26.  The titles are clean: the title of every chunk is "General",
    "Untitled", or a non-empty text that starts with none of [#], [:],
    [-] and whitespace. *)
Theorem chunk_by_topic_clean_titles (text : string) :
  Forall (fun c => clean_title (title c)) (chunk_by_topic text).
Proof.
  unfold chunk_by_topic, chunk_paragraphs. apply chunk_loop_titles.
  - constructor.
  - left. reflexivity.
Qed.

(** ** Records without expiry and the native filter *)

Lemma retrieve_native_has_expiry (env : Env) (query : string) (top_k : nat)
    (w w' : World) (ms : list Match) :
  PINECONE_NEW env = true ->
  retrieve env query top_k w = (Ret ms, w') ->
  Forall (fun m => md_expires_at (metadata_or_empty m) <> None) ms.
Proof.
  intros Hnew. rewrite retrieve_run, Hnew.
  destruct (embed_oracle env query) as [[qvec n]|e]; [|discriminate].
  cbv zeta. intros [= <- _]. apply Forall_forall. intros m Hm.
  apply filter_In in Hm as [Hm _].
  apply In_firstn, sort_desc_In, in_map_iff in Hm as (r & <- & Hr).
  apply filter_In in Hr as [_ Hr]. unfold passes_filter in Hr.
  unfold metadata_or_empty, hit. cbn [m_metadata].
  destruct (md_expires_at (r_metadata r)); [discriminate|discriminate Hr].
Qed.

Lemma Forall2_right {A B : Type} (P : B -> Prop) (R : A -> B -> Prop)
    (l : list A) (l' : list B) :
  (forall a b, R a b -> P b) -> Forall2 R l l' -> Forall P l'.
Proof.
  intros H. induction 1; constructor; eauto.
Qed.

(** X27.  Records written without expiry are invisible to the native
    filter: after a batch upserted with [ttl_hours <= 0], no retrieval
    on the native-filter path, in whatever state of the index, returns
    a match that carries the metadata of a record of that batch. *)
Theorem no_ttl_records_never_retrieved
    (env : Env) (cs : list Chunk) (source : string) (ttl_hours : Z)
    (w w1 w2 w3 : World) (recs : list IndexedRecord)
    (query : string) (top_k : nat) (ms : list Match) :
  (ttl_hours <= 0)%Z ->
  upsert_chunks env cs source ttl_hours w = (Ret tt, w1) ->
  upserted (trace w1) = (upserted (trace w) ++ recs)%list ->
  PINECONE_NEW env = true ->
  retrieve env query top_k w2 = (Ret ms, w3) ->
  forall r m, In r recs -> In m ms -> m_metadata m <> Some (r_metadata r).
Proof.
  intros Httl Hrun Hrecs Hnew Hret r m Hr Hm Heq.
  apply upsert_chunks_run in Hrun as (w0 & Hw0 & Hloop).
  apply upsert_loop_run in Hloop as (recs' & Hu & _ & Hf).
  rewrite Hw0 in Hu.
  assert (recs' = recs)
    by (apply (app_inv_head (upserted (trace w))); congruence).
  subst recs'.
  assert (Hno : (ttl_hours >? 0)%Z = false).
  { rewrite Z.gtb_ltb. apply Z.ltb_ge. exact Httl. }
  rewrite Hno in Hf. cbn [attached_expiry] in Hf.
  assert (Hnone : Forall (fun r => md_expires_at (r_metadata r) = None) recs).
  { eapply Forall2_right; [|exact Hf]. cbv beta. intros a b [_ H]. exact H. }
  rewrite Forall_forall in Hnone. specialize (Hnone r Hr).
  pose proof (retrieve_native_has_expiry _ _ _ _ _ _ Hnew Hret) as Hsome.
  rewrite Forall_forall in Hsome. specialize (Hsome m Hm).
  apply Hsome. unfold metadata_or_empty. rewrite Heq. exact Hnone.
Qed.

Lemma no_ttl_records_never_retrieved_witness :
  let env := example_env true still_clock in
  let w1 := snd (upsert_chunks env [mkChunk "t" "hello"] "s" 0 empty_world) in
  let w2 := snd (upsert_chunks env [mkChunk "u" "other"] "s2" 1 w1) in
  let ms := match fst (retrieve env "hello" 5 w2) with
            | Ret ms => ms
            | Raise _ => []
            end in
  let r := nth 0 (upserted (trace w1)) (example_record "" 0 "" None) in
  let m := nth 0 ms (mkMatch "" None None) in
  In r (upserted (trace w1)) /\ In m ms
  /\ m_metadata m <> Some (r_metadata r).
Proof.
  cbv zeta. split; [vm_compute; left; reflexivity|].
  split; [vm_compute; left; reflexivity|].
  apply (no_ttl_records_never_retrieved (example_env true still_clock)
           [mkChunk "t" "hello"] "s" 0 empty_world
           (snd (upsert_chunks (example_env true still_clock)
                   [mkChunk "t" "hello"] "s" 0 empty_world))
           (snd (upsert_chunks (example_env true still_clock)
                   [mkChunk "u" "other"] "s2" 1
                   (snd (upsert_chunks (example_env true still_clock)
                           [mkChunk "t" "hello"] "s" 0 empty_world))))
           (snd (retrieve (example_env true still_clock) "hello" 5
                   (snd (upsert_chunks (example_env true still_clock)
                           [mkChunk "u" "other"] "s2" 1
                           (snd (upsert_chunks (example_env true still_clock)
                                   [mkChunk "t" "hello"] "s" 0
                                   empty_world))))))
           (upserted
              (trace (snd (upsert_chunks (example_env true still_clock)
                             [mkChunk "t" "hello"] "s" 0 empty_world))))
           "hello" 5
           (match fst (retrieve (example_env true still_clock) "hello" 5
                   (snd (upsert_chunks (example_env true still_clock)
                           [mkChunk "u" "other"] "s2" 1
                           (snd (upsert_chunks (example_env true still_clock)
                                   [mkChunk "t" "hello"] "s" 0
                                   empty_world))))) with
            | Ret ms => ms
            | Raise _ => []
            end)).
  - lia.
  - vm_compute. reflexivity.
  - reflexivity.
  - reflexivity.
  - vm_compute. reflexivity.
  - vm_compute. left. reflexivity.
  - vm_compute. left. reflexivity.
Defined.

(** ** How long a record can be retrieved *)


